(** * LiveTranscriber: the streaming transcription core

    A shallow embedding of
    [transcripts_pipeline/pipeline/transcriptiongenerator.py]
    (class [LiveTranscriber]) and the properties of its streaming loop,
    its resource teardown and its [run] wrapper.

    Python values are modelled as follows.
    - [str] is a list of Unicode code points ([pystr]).
    - [bytes] is a list of bytes.
    - A raised exception is a value of [exn]; only the distinction the
      handlers of the source make is kept: subclasses of [Exception],
      [KeyboardInterrupt], and the other direct subclasses of
      [BaseException].
    - The collaborators (PyAudio, Vosk, [json], [datetime], the caller's
      audio callback) are oracles over an abstract world, collected in
      [Env]; every call may return or raise.
    - [self] is the record [LiveTranscriber]; methods are computations in
      the state-and-exception monad [M].
    - Generators are resumable state machines with the states and the
      operations ([next], [throw], [close]) of Python generator objects. *)

From Stdlib Require Import List ZArith NArith Bool String Ascii Lia.
From Stdlib.Strings Require Import Byte.
Import ListNotations.

Local Open Scope list_scope.

(* ================================================================== *)
(** ** Python strings and [str.strip] *)

Module PyStr.

(** A [str]: its code points. *)
Definition pystr := list N.

(** A literal of the source. *)
Fixpoint lit (s : string) : pystr :=
  match s with
  | EmptyString => []
  | String c s' => N_of_ascii c :: lit s'
  end.

Definition between (lo hi c : N) : bool := (N.leb lo c && N.leb c hi)%bool.

(** [str.isspace] on one character: the code points CPython's
    [Py_UNICODE_ISSPACE] accepts. *)
Definition isspace (c : N) : bool :=
  (between 9 13 c || between 28 32 c || N.eqb c 133 || N.eqb c 160
   || N.eqb c 5760 || between 8192 8202 c || N.eqb c 8232 || N.eqb c 8233
   || N.eqb c 8239 || N.eqb c 8287 || N.eqb c 12288)%bool.

Fixpoint lstrip (s : pystr) : pystr :=
  match s with
  | [] => []
  | c :: s' => if isspace c then lstrip s' else s
  end.

Definition rstrip (s : pystr) : pystr := rev (lstrip (rev s)).

(** [s.strip()] with no argument. *)
Definition strip (s : pystr) : pystr := rstrip (lstrip s).

(** Truth value of a [str]: non-empty. *)
Definition truthy (s : pystr) : bool :=
  match s with [] => false | _ :: _ => true end.

Definition eqb (a b : pystr) : bool :=
  if list_eq_dec N.eq_dec a b then true else false.

End PyStr.
Export PyStr.

(* ================================================================== *)
(** ** Values exchanged with the collaborators *)

(** A frame of raw PCM audio, as [stream.read] returns it. *)
Definition bytes := list byte.

#[local] Set Warnings "-register-all".

(** A value returned by [json.loads]. *)
Inductive json :=
| JNull
| JBool (b : bool)
| JInt (z : Z)
| JFloat (lexeme : pystr)
| JStr (s : pystr)
| JList (l : list json)
| JDict (items : list (pystr * json)).

(** Lookup in the items of a [dict]. *)
Fixpoint dict_lookup (items : list (pystr * json)) (key : pystr) : option json :=
  match items with
  | [] => None
  | (k, v) :: rest => if PyStr.eqb k key then Some v else dict_lookup rest key
  end.

(** Exceptions.  [Stop_Iteration] is the exception [StopIteration], or
    one of a subclass of it.  [OtherException] is any further subclass
    of [Exception] a collaborator may raise ([OSError],
    [json.JSONDecodeError], ...).  The last three derive from
    [BaseException] only; an interrupt that arrives during a call is
    that call raising [KeyboardInterrupt]. *)
Inductive exn :=
| RuntimeError (msg : string)
| ValueError (msg : string)
| FileNotFoundError (msg : string)
| AttributeError (msg : string)
| Stop_Iteration
| OtherException (name : string)
| KeyboardInterrupt
| GeneratorExit
| SystemExit.

(** [isinstance(e, Exception)]: what [except Exception] catches. *)
Definition isinstance_Exception (e : exn) : bool :=
  match e with
  | KeyboardInterrupt | GeneratorExit | SystemExit => false
  | _ => true
  end.

(** What [except KeyboardInterrupt] catches. *)
Definition isinstance_KeyboardInterrupt (e : exn) : bool :=
  match e with KeyboardInterrupt => true | _ => false end.

Definition isinstance_AttributeError (e : exn) : bool :=
  match e with AttributeError _ => true | _ => false end.

(** The outcome of a call: a value, or a raised exception. *)
Inductive result (A : Type) :=
| Ok (a : A)
| Raise (e : exn).
Arguments Ok {A} a.
Arguments Raise {A} e.

(** The ["type"] entry of an event. *)
Inductive kind := partial | final.

(** The dict a transcription event is yielded as (lines 180-185, 190-195). *)
Record event := {
  type : kind;
  text : pystr;
  timestamp : pystr;
  raw_result : json
}.

(** The value of [ConfigManager.wav_format]: a PyAudio constant, or the
    configured name when PyAudio has no such constant. *)
Inductive wavfmt :=
| PaConstant (c : Z)
| FormatName (s : pystr).

(** The duck-typed configuration object.  Every attribute is a property
    whose evaluation may raise; [None] marks an attribute the object does
    not have, and, for the model path, a value that is not a [str]. *)
Record Config := {
  vosk_model_path : result (option pystr);
  vosk_enable_word_timing : option (result bool);
  sample_rate : result Z;
  channels : result Z;
  frame_per_buffer : result Z;
  wav_format : result wavfmt;
  device_index : option (result Z)
}.

(** Objects of the collaborating libraries are known by a handle. *)
Definition handle := nat.

(** The keyword arguments of [PyAudio.open] (lines 109-121). *)
Record open_kwargs := {
  kw_format : wavfmt;
  kw_channels : Z;
  kw_rate : Z;
  kw_input : bool;
  kw_frames_per_buffer : Z;
  kw_input_device_index : option Z
}.

(** The collaborators, over a world [W] they may change. *)
Class Env (W : Type) := {
  PyAudio : W -> result handle * W;
  pa_open : handle -> open_kwargs -> W -> result handle * W;
  pa_terminate : handle -> W -> result unit * W;
  stream_read : handle -> Z -> W -> result bytes * W;
  stream_stop_stream : handle -> W -> result unit * W;
  stream_close : handle -> W -> result unit * W;
  Model : pystr -> W -> result handle * W;
  KaldiRecognizer : handle -> Z -> W -> result handle * W;
  has_SetWords : handle -> bool;
  SetWords : handle -> bool -> W -> result unit * W;
  AcceptWaveform : handle -> bytes -> W -> result bool * W;
  Result : handle -> W -> result pystr * W;
  PartialResult : handle -> W -> result pystr * W;
  json_loads : pystr -> result json;
  now_isoformat : W -> pystr * W
}.

(** The caller's [audio_callback]: an object with a truth value, which
    line 167 tests, that is called with the frame.  It has a state [K]
    of its own and holds no reference to the object or to the
    collaborators.  Its truth value may depend on its state (a callable
    collection is false while it is empty); taking the truth value
    neither fails nor changes the state. *)
Record callback (K : Type) := {
  cb_bool : K -> bool;
  cb_call :> bytes -> K -> result unit * K
}.
Arguments cb_bool {K}.
Arguments cb_call {K}.

(** The instance attributes of [LiveTranscriber] (lines 78-89). *)
Record LiveTranscriber := {
  config : Config;
  model : option handle;
  recognizer : option handle;
  stream : option handle;
  p : option handle
}.

(** [__init__] given a configuration object (lines 81-89). *)
Definition init (c : Config) : LiveTranscriber :=
  {| config := c; model := None; recognizer := None;
     stream := None; p := None |}.

(** What the program does to the outside, most recent first. *)
Inductive action :=
| A_print (msg : string)
| A_PyAudio (r : result handle)
| A_open (kw : open_kwargs) (r : result handle)
| A_read (n : Z) (r : result bytes)
| A_stop_stream (r : result unit)
| A_close (r : result unit)
| A_terminate (r : result unit)
| A_Model (path : pystr) (r : result handle)
| A_KaldiRecognizer (r : result handle)
| A_SetWords (r : result unit)
| A_AcceptWaveform (data : bytes) (r : result bool)
| A_Result (r : result pystr)
| A_PartialResult (r : result pystr)
| A_callback (data : bytes) (r : result unit)
| A_yield (evt : event).

(* ================================================================== *)
(** ** Program state and the monad of methods *)

(** The state a method runs in: the object, the world of the
    collaborators, the state of the caller's callback, and the history
    of actions (most recent first). *)
Record St (W K : Type) := mkSt {
  self : LiveTranscriber;
  world : W;
  sink : K;
  hist : list action
}.
Arguments mkSt {W K}.
Arguments self {W K}.
Arguments world {W K}.
Arguments sink {W K}.
Arguments hist {W K}.

Section Methods.

Context {W K : Type} {E : Env W}.

Abbreviation State := (St W K).

(** A method body: it returns or raises, and leaves a state. *)
Definition M (A : Type) : Type := State -> result A * State.

Definition ret {A} (a : A) : M A := fun st => (Ok a, st).

Definition raise {A} (e : exn) : M A := fun st => (Raise e, st).

Definition bind {A B} (m : M A) (f : A -> M B) : M B :=
  fun st =>
    match m st with
    | (Ok a, st') => f a st'
    | (Raise e, st') => (Raise e, st')
    end.

Notation "x <- m ;; k" := (bind m (fun x => k))
  (at level 61, m at next level, right associativity).
Notation "m ;; k" := (bind m (fun _ => k))
  (at level 61, right associativity).

(** [try: m  except <class> as e: h e] *)
Definition try_except {A} (m : M A) (catches : exn -> bool) (h : exn -> M A)
  : M A :=
  fun st =>
    match m st with
    | (Raise e, st') => if catches e then h e st' else (Raise e, st')
    | ok => ok
    end.

(** [try: m  except Exception: pass] *)
Definition try_pass (m : M unit) : M unit :=
  try_except m isinstance_Exception (fun _ => ret tt).

(** An action enters the history. *)
Definition log (a : action) : M unit :=
  fun st => (Ok tt, mkSt (self st) (world st) (sink st) (a :: hist st)).

(** [print]: the fixed part of the message is kept, not the values an
    f-string formats into it. *)
Definition print (msg : string) : M unit := log (A_print msg).

(** A call to a collaborator, recorded with its outcome. *)
Definition call {A} (f : W -> result A * W) (record : result A -> action)
  : M A :=
  fun st =>
    let (r, w) := f (world st) in
    (r, mkSt (self st) w (sink st) (record r :: hist st)).

(** [audio_callback(data)] *)
Definition call_callback (cb : callback K) (data : bytes) : M unit :=
  fun st =>
    let (r, k) := cb data (sink st) in
    (r, mkSt (self st) (world st) k (A_callback data r :: hist st)).

(** [datetime.now().isoformat()] *)
Definition now : M pystr :=
  fun st =>
    let (ts, w) := now_isoformat (world st) in
    (Ok ts, mkSt (self st) w (sink st) (hist st)).

(** Reading a property of [self.config]. *)
Definition cfg {A} (prop : Config -> result A) : M A :=
  fun st => (prop (config (self st)), st).

Definition get {A} (field : LiveTranscriber -> A) : M A :=
  fun st => (Ok (field (self st)), st).

Definition update (f : LiveTranscriber -> LiveTranscriber) : M unit :=
  fun st => (Ok tt, mkSt (f (self st)) (world st) (sink st) (hist st)).

Definition set_model (v : option handle) : M unit :=
  update (fun o => {| config := config o; model := v;
                      recognizer := recognizer o; stream := stream o;
                      p := p o |}).

Definition set_recognizer (v : option handle) : M unit :=
  update (fun o => {| config := config o; model := model o;
                      recognizer := v; stream := stream o; p := p o |}).

Definition set_stream (v : option handle) : M unit :=
  update (fun o => {| config := config o; model := model o;
                      recognizer := recognizer o; stream := v; p := p o |}).

Definition set_p (v : option handle) : M unit :=
  update (fun o => {| config := config o; model := model o;
                      recognizer := recognizer o; stream := stream o;
                      p := v |}).

(** Attribute access on a field that may hold [None]. *)
Definition attr_of (field : LiveTranscriber -> option handle) (name : string)
  : M handle :=
  o <- get field ;;
  match o with
  | Some h => ret h
  | None => raise (AttributeError name)
  end.

(** [hasattr(self.config, name)]: false when the attribute is missing or
    its property raises [AttributeError]; other exceptions propagate. *)
Definition hasattr {A} (prop : Config -> option (result A)) : M bool :=
  fun st =>
    match prop (config (self st)) with
    | None => (Ok false, st)
    | Some (Ok _) => (Ok true, st)
    | Some (Raise e) =>
        if isinstance_AttributeError e then (Ok false, st) else (Raise e, st)
    end.

(** [getattr(self.config, name)] *)
Definition getattr {A} (prop : Config -> option (result A)) (name : string)
  : M A :=
  fun st =>
    match prop (config (self st)) with
    | None => (Raise (AttributeError name), st)
    | Some r => (r, st)
    end.

(** [getattr(self.config, name, default)] *)
Definition getattr_default {A} (prop : Config -> option (result A))
  (default : A) : M A :=
  fun st =>
    match prop (config (self st)) with
    | None => (Ok default, st)
    | Some (Ok v) => (Ok v, st)
    | Some (Raise e) =>
        if isinstance_AttributeError e then (Ok default, st)
        else (Raise e, st)
    end.

(* ------------------------------------------------------------------ *)
(** *** Model and audio setup *)

(** [load_model] (lines 94-101). *)
Definition load_model : M unit :=
  model_path <- cfg vosk_model_path ;;
  match model_path with
  | None => raise (FileNotFoundError "Vosk model path is missing in config")
  | Some path =>
      if truthy path then
        now ;; print "Loading Vosk model from" ;;
        m <- call (Model path) (A_Model path) ;;
        set_model (Some m) ;;
        now ;; print "Vosk model loaded successfully!"
      else raise (FileNotFoundError "Vosk model path is missing in config")
  end.

(** [setup_audio_stream] (lines 103-124). *)
Definition setup_audio_stream : M unit :=
  pa <- call PyAudio A_PyAudio ;;
  set_p (Some pa) ;;
  fmt <- cfg wav_format ;;
  ch <- cfg channels ;;
  rate <- cfg sample_rate ;;
  fpb <- cfg frame_per_buffer ;;
  has <- hasattr device_index ;;
  idx <- (if has : bool then
            d <- getattr device_index "device_index" ;;
            ret (if Z.eqb d 0 then None else Some d)
          else ret None) ;;
  let kw := {| kw_format := fmt; kw_channels := ch; kw_rate := rate;
               kw_input := true; kw_frames_per_buffer := fpb;
               kw_input_device_index := idx |} in
  s <- call (pa_open pa kw) (A_open kw) ;;
  set_stream (Some s) ;;
  cfg sample_rate ;; cfg channels ;;
  print "[LiveTranscriber] Audio stream opened".

(** [start_recognition] (lines 126-145). *)
Definition start_recognition : M unit :=
  m <- get model ;;
  match m with
  | None => raise (RuntimeError "Model not loaded. Call load_model() first.")
  | Some mh =>
      rate <- cfg sample_rate ;;
      r <- call (KaldiRecognizer mh rate) A_KaldiRecognizer ;;
      set_recognizer (Some r) ;;
      try_pass
        (flag <- getattr_default vosk_enable_word_timing false ;;
         if (flag : bool) then
           if has_SetWords r then try_pass (call (SetWords r true) A_SetWords)
           else ret tt
         else ret tt) ;;
      print "[LiveTranscriber] Vosk recognizer initialized"
  end.

(** [cleanup] (lines 207-228). *)
Definition cleanup : M unit :=
  try_except
    (s <- get stream ;;
     match s with
     | Some sh =>
         try_pass (call (stream_stop_stream sh) A_stop_stream) ;;
         try_pass (call (stream_close sh) A_close) ;;
         set_stream None
     | None => ret tt
     end ;;
     pa <- get p ;;
     match pa with
     | Some ph =>
         try_pass (call (pa_terminate ph) A_terminate) ;;
         set_p None
     | None => ret tt
     end ;;
     print "[LiveTranscriber] Audio resources cleaned up")
    isinstance_Exception
    (fun _ => print "[LiveTranscriber] Error during cleanup").


(* ------------------------------------------------------------------ *)
(** *** The streaming generator *)

(** How one pass through the body of [while True] ends: at a [yield],
    or at the end of the body. *)
Inductive step :=
| Continue
| Yield (evt : event).

(** The [yield] statement: the event leaves the generator. *)
Definition yield_ (evt : event) : M step :=
  log (A_yield evt) ;; ret (Yield evt).

(** [v.get(key, "")]: only a dict has [get]. *)
Definition py_get (v : json) (key : pystr) : M json :=
  match v with
  | JDict items =>
      ret (match dict_lookup items key with
           | Some x => x
           | None => JStr []
           end)
  | _ => raise (AttributeError "get")
  end.

(** [v.strip()]: only a str has [strip]. *)
Definition py_strip (v : json) : M pystr :=
  match v with
  | JStr s => ret (strip s)
  | _ => raise (AttributeError "strip")
  end.

(** [json.loads(payload)] *)
Definition loads (payload : pystr) : M json :=
  fun st => (json_loads payload, st).

(** Line 164: [self.stream.read(self.config.frame_per_buffer, ...)]. *)
Definition read_frame : M bytes :=
  sh <- attr_of stream "read" ;;
  n <- cfg frame_per_buffer ;;
  call (stream_read sh n) (A_read n).

(** Whether [if audio_callback:] holds (line 167), the callback being
    in the state [k]: the truth value of the argument, [None] being
    false. *)
Definition has_callback (cb : option (callback K)) (k : K) : bool :=
  match cb with
  | Some f => cb_bool f k
  | None => false
  end.

(** Lines 167-172: the raw frame is handed to the optional callback. *)
Definition offer (audio_callback : option (callback K)) (data : bytes)
  : M unit :=
  fun st =>
    match audio_callback with
    | Some cb =>
        if cb_bool cb (sink st) then
          try_except (call_callback cb data) isinstance_Exception
            (fun _ => print "[LiveTranscriber] audio_callback error") st
        else (Ok tt, st)
    | None => (Ok tt, st)
    end.

(** Lines 176-195: the frame is fed to Vosk and the outcome classified. *)
Definition feed (data : bytes) : M step :=
  rh <- attr_of recognizer "AcceptWaveform" ;;
  complete <- call (AcceptWaveform rh data) (A_AcceptWaveform data) ;;
  if (complete : bool) then
    payload <- call (Result rh) A_Result ;;
    res <- loads payload ;;
    v <- py_get res (lit "text") ;;
    txt <- py_strip v ;;
    if truthy txt then
      ts <- now ;;
      yield_ {| type := final; text := txt; timestamp := ts;
                raw_result := res |}
    else ret Continue
  else
    payload <- call (PartialResult rh) A_PartialResult ;;
    part <- loads payload ;;
    v <- py_get part (lit "partial") ;;
    ptxt <- py_strip v ;;
    if truthy ptxt then
      ts <- now ;;
      yield_ {| type := partial; text := ptxt; timestamp := ts;
                raw_result := part |}
    else ret Continue.

(** Lines 196-199: the handler of the inner [try]. *)
Definition on_vosk_error (e : exn) : M step :=
  print "[LiveTranscriber] Vosk processing error" ;; ret Continue.

(** Lines 175-199. *)
Definition recognize (data : bytes) : M step :=
  try_except (feed data) isinstance_Exception on_vosk_error.

(** Lines 164-199: one pass through the body of [while True]. *)
Definition loop_body (audio_callback : option (callback K)) : M step :=
  data <- read_frame ;;
  offer audio_callback data ;;
  recognize data.

(** Lines 158-161: the guard and the banner, run by the first [next]. *)
Definition ts_enter : M unit :=
  s <- get stream ;;
  r <- get recognizer ;;
  match s, r with
  | Some _, Some _ =>
      print
        "[LiveTranscriber] Starting real-time transcription. Press Ctrl+C to stop."
  | _, _ =>
      raise
        (RuntimeError
           "Audio stream or recognizer not initialized. Call setup and start_recognition first.")
  end.

(** The states of a generator object ([inspect.getgeneratorstate]). *)
Inductive gen_state := GEN_CREATED | GEN_RUNNING | GEN_SUSPENDED | GEN_CLOSED.

(** How a suspended generator is resumed. *)
Inductive send :=
| Next
| Throw (e : exn).

(** What a generator operation gives back to its caller.  [Timeout]: the
    fuel ran out while the generator was still running. *)
Inductive resumed :=
| Yielded (evt : event)
| StopIteration
| Raised (e : exn)
| Returned
| Timeout.

(** PEP 479: a [StopIteration] that is about to leave the frame of a
    generator is replaced by a [RuntimeError]. *)
Definition pep479 (e : exn) : exn :=
  match e with
  | Stop_Iteration => RuntimeError "generator raised StopIteration"
  | _ => e
  end.

(** The way out of the frame of a generator, as its caller gets it. *)
Definition leaving (r : resumed) : resumed :=
  match r with
  | Raised e => Raised (pep479 e)
  | _ => r
  end.

Definition leave (out : resumed * State) : resumed * State :=
  (leaving (fst out), snd out).

(** Lines 201-205: the handlers of the outer [try]. *)
Definition ts_handlers (e : exn) : State -> resumed * State :=
  fun st =>
    if isinstance_KeyboardInterrupt e then
      (StopIteration,
       snd (print "[LiveTranscriber] Transcription stopped by user" st))
    else if isinstance_Exception e then
      (Raised e, snd (print "[LiveTranscriber] Error during transcription" st))
    else (Raised e, st).

(** Lines 162-205: [while True] inside the outer [try], from the head of
    the loop.  [fuel] bounds the number of frames read. *)
Fixpoint ts_loop (fuel : nat) (audio_callback : option (callback K))
  (st : State) : resumed * State :=
  match fuel with
  | O => (Timeout, st)
  | S fuel' =>
      match loop_body audio_callback st with
      | (Ok Continue, st') => ts_loop fuel' audio_callback st'
      | (Ok (Yield evt), st') => (Yielded evt, st')
      | (Raise e, st') => ts_handlers e st'
      end
  end.

(** An exception thrown in at a [yield]: both yields are inside the
    inner [try], whose handler continues the loop. *)
Definition thrown_at_yield (e : exn) : M step :=
  try_except (raise e) isinstance_Exception on_vosk_error.

(** Resuming the generator [transcribe_stream(audio_callback)].  An
    exception thrown into a generator that was not started is raised in
    its frame before the first statement. *)
Definition ts_resume (audio_callback : option (callback K)) (g : gen_state)
  (s : send) (fuel : nat) (st : State) : resumed * State :=
  match g, s with
  | GEN_CREATED, Next =>
      match ts_enter st with
      | (Ok _, st') => leave (ts_loop fuel audio_callback st')
      | (Raise e, st') => leave (Raised e, st')
      end
  | GEN_SUSPENDED, Next => leave (ts_loop fuel audio_callback st)
  | GEN_SUSPENDED, Throw e =>
      match thrown_at_yield e st with
      | (Ok _, st') => leave (ts_loop fuel audio_callback st')
      | (Raise e', st') => leave (ts_handlers e' st')
      end
  | GEN_CREATED, Throw e => leave (Raised e, st)
  | GEN_CLOSED, Next => (StopIteration, st)
  | GEN_CLOSED, Throw e => (Raised e, st)
  | GEN_RUNNING, _ => (Raised (ValueError "generator already executing"), st)
  end.

(* ------------------------------------------------------------------ *)
(** *** The runner *)

(** Lines 240-242. *)
Definition run_setup : M unit :=
  load_model ;; setup_audio_stream ;; start_recognition.

(** Lines 247-249: the [finally] clause, entered with the pending way out
    of the [try]; an exception escaping [cleanup] replaces it. *)
Definition run_finally (pending : resumed) (st : State) : resumed * State :=
  match cleanup st with
  | (Ok _, st') => (pending, st')
  | (Raise e, st') => (Raised e, st')
  end.

(** Lines 244-245: the [for] statement asks the inner generator for its
    next event and yields it. *)
Definition run_for (audio_callback : option (callback K)) (inner : gen_state)
  (fuel : nat) (st : State) : resumed * State :=
  match ts_resume audio_callback inner Next fuel st with
  | (Yielded evt, st') => (Yielded evt, st')
  | (Timeout, st') => (Timeout, st')
  | (ended, st') => run_finally ended st'
  end.

(** Resuming the generator [run(audio_callback)].  While it is suspended
    at its [yield evt], the inner generator is suspended at its own. *)
Definition run_resume (audio_callback : option (callback K)) (g : gen_state)
  (s : send) (fuel : nat) (st : State) : resumed * State :=
  match g, s with
  | GEN_CREATED, Next =>
      match run_setup st with
      | (Ok _, st') => leave (run_for audio_callback GEN_CREATED fuel st')
      | (Raise e, st') => leave (run_finally (Raised e) st')
      end
  | GEN_SUSPENDED, Next => leave (run_for audio_callback GEN_SUSPENDED fuel st)
  | GEN_SUSPENDED, Throw e => leave (run_finally (Raised e) st)
  | GEN_CREATED, Throw e => leave (Raised e, st)
  | GEN_CLOSED, Next => (StopIteration, st)
  | GEN_CLOSED, Throw e => (Raised e, st)
  | GEN_RUNNING, _ => (Raised (ValueError "generator already executing"), st)
  end.

(** Lines 238-245: the [try] block of [run], entered by the first [next]
    or resumed at its [yield]: how the block is left, and in which
    state.  [StopIteration] is the [for] statement running out, so that
    the block ends; [Yielded], the generator suspended in the block
    again.  [None]: the block is neither entered nor resumed. *)
Definition run_try (audio_callback : option (callback K)) (g : gen_state)
  (s : send) (fuel : nat) (st : State) : option (resumed * State) :=
  match g, s with
  | GEN_CREATED, Next =>
      Some match run_setup st with
           | (Ok _, st') => ts_resume audio_callback GEN_CREATED Next fuel st'
           | (Raise e, st') => (Raised e, st')
           end
  | GEN_SUSPENDED, Next =>
      Some (ts_resume audio_callback GEN_SUSPENDED Next fuel st)
  | GEN_SUSPENDED, Throw e => Some (Raised e, st)
  | _, _ => None
  end.

(* ------------------------------------------------------------------ *)
(** *** The caller's side of a generator *)

(** The operations of a generator object. *)
Inductive op :=
| op_next
| op_throw (e : exn)
| op_close.

Definition generator := gen_state -> send -> nat -> State -> resumed * State.

(** What an operation sends to a generator that can run: [close] throws
    [GeneratorExit] in. *)
Definition sent (o : op) : send :=
  match o with
  | op_next => Next
  | op_throw e => Throw e
  | op_close => Throw GeneratorExit
  end.

(** The state of the generator after an operation gave [r]. *)
Definition state_after (r : resumed) : gen_state :=
  match r with
  | Yielded _ => GEN_SUSPENDED
  | Timeout => GEN_RUNNING
  | _ => GEN_CLOSED
  end.

(** [gen.close()]: [GeneratorExit] is thrown in at the [yield]; the call
    returns if the generator ends or lets [GeneratorExit] through. *)
Definition gen_close (gen : generator) (g : gen_state) (fuel : nat)
  (st : State) : resumed * gen_state * State :=
  match g with
  | GEN_SUSPENDED =>
      match gen g (Throw GeneratorExit) fuel st with
      | (Yielded _, st') =>
          (Raised (RuntimeError "generator ignored GeneratorExit"),
           GEN_SUSPENDED, st')
      | (Raised GeneratorExit, st') => (Returned, GEN_CLOSED, st')
      | (StopIteration, st') => (Returned, GEN_CLOSED, st')
      | (r, st') => (r, state_after r, st')
      end
  | GEN_RUNNING =>
      (Raised (ValueError "generator already executing"), g, st)
  | _ => (Returned, GEN_CLOSED, st)
  end.

Definition gen_op (gen : generator) (g : gen_state) (o : op) (fuel : nat)
  (st : State) : resumed * gen_state * State :=
  match o with
  | op_close => gen_close gen g fuel st
  | op_next =>
      let (r, st') := gen g Next fuel st in
      (r, match g with GEN_RUNNING => g | _ => state_after r end, st')
  | op_throw e =>
      let (r, st') := gen g (Throw e) fuel st in
      (r, match g with GEN_RUNNING => g | _ => state_after r end, st')
  end.

(** A caller applying operations one after the other; what each gave
    back is collected, first operation first.  [fuel] bounds the frames
    each operation may read; the caller stops at a [Timeout]. *)
Fixpoint consume (gen : generator) (ops : list op) (fuel : nat)
  (g : gen_state) (st : State) : list resumed * gen_state * State :=
  match ops with
  | [] => ([], g, st)
  | o :: ops' =>
      match gen_op gen g o fuel st with
      | (Timeout, g', st') => ([Timeout], g', st')
      | (r, g', st') =>
          let '(rs, g'', st'') := consume gen ops' fuel g' st' in
          (r :: rs, g'', st'')
      end
  end.

(* ------------------------------------------------------------------ *)
(** *** What a frame leaves in the history

    The actions one pass of the loop body can add to the history, most
    recent first, with the way the pass ends. *)

(** The text [feed] extracts from a payload of the recognizer:
    [json.loads(payload).get(key, "").strip()]. *)
Definition payload_text (key payload : pystr) : result pystr :=
  match json_loads payload with
  | Ok (JDict items) =>
      match dict_lookup items key with
      | Some (JStr s) => Ok (strip s)
      | Some _ => Raise (AttributeError "strip")
      | None => Ok (strip [])
      end
  | Ok _ => Raise (AttributeError "get")
  | Raise e => Raise e
  end.

(** The call that fetches the result, by what [AcceptWaveform] said. *)
Definition fetch_action (complete : bool) (r : result pystr) : action :=
  if complete then A_Result r else A_PartialResult r.

Definition fetch_key (complete : bool) : pystr :=
  if complete then lit "text" else lit "partial".

Definition fetch_kind (complete : bool) : kind :=
  if complete then final else partial.

Inductive read_log : result bytes -> list action -> Prop :=
| read_unreached e : read_log (Raise e) []
| read_called n r : read_log r [A_read n r].

Inductive offer_log (data : bytes) : bool -> result unit -> list action -> Prop :=
| offer_absent : offer_log data false (Ok tt) []
| offer_ok : offer_log data true (Ok tt) [A_callback data (Ok tt)]
| offer_caught e msg :
    isinstance_Exception e = true ->
    offer_log data true (Ok tt) [A_print msg; A_callback data (Raise e)]
| offer_escaped e :
    isinstance_Exception e = false ->
    offer_log data true (Raise e) [A_callback data (Raise e)].

Inductive feed_log (data : bytes) : result step -> list action -> Prop :=
| feed_unreached e : feed_log data (Raise e) []
| feed_refused e :
    feed_log data (Raise e) [A_AcceptWaveform data (Raise e)]
| feed_fetch_failed complete e :
    feed_log data (Raise e)
      [fetch_action complete (Raise e); A_AcceptWaveform data (Ok complete)]
| feed_bad_payload complete payload e :
    payload_text (fetch_key complete) payload = Raise e ->
    feed_log data (Raise e)
      [fetch_action complete (Ok payload);
       A_AcceptWaveform data (Ok complete)]
| feed_blank complete payload txt :
    payload_text (fetch_key complete) payload = Ok txt ->
    truthy txt = false ->
    feed_log data (Ok Continue)
      [fetch_action complete (Ok payload);
       A_AcceptWaveform data (Ok complete)]
| feed_event complete payload res txt ts :
    json_loads payload = Ok res ->
    payload_text (fetch_key complete) payload = Ok txt ->
    truthy txt = true ->
    let evt := {| type := fetch_kind complete; text := txt;
                  timestamp := ts; raw_result := res |} in
    feed_log data (Ok (Yield evt))
      [A_yield evt; fetch_action complete (Ok payload);
       A_AcceptWaveform data (Ok complete)].

Inductive recognize_log (data : bytes) : result step -> list action -> Prop :=
| recognize_through r d :
    feed_log data r d ->
    match r with Raise e => isinstance_Exception e = false | Ok _ => True end ->
    recognize_log data r d
| recognize_skipped e d msg :
    feed_log data (Raise e) d ->
    isinstance_Exception e = true ->
    recognize_log data (Ok Continue) (A_print msg :: d).

Inductive frame_log (has_callback : bool) : result step -> list action -> Prop :=
| frame_lost e d :
    read_log (Raise e) d -> frame_log has_callback (Raise e) d
| frame_sink_escaped data dr e ds :
    read_log (Ok data) dr ->
    offer_log data has_callback (Raise e) ds ->
    frame_log has_callback (Raise e) (ds ++ dr)
| frame_processed data dr ds r df :
    read_log (Ok data) dr ->
    offer_log data has_callback (Ok tt) ds ->
    recognize_log data r df ->
    frame_log has_callback r (df ++ ds ++ dr).

End Methods.

(* ================================================================== *)
(** ** Reading a history *)

(** The events yielded. *)
Fixpoint yields (h : list action) : list event :=
  match h with
  | [] => []
  | A_yield evt :: h' => evt :: yields h'
  | _ :: h' => yields h'
  end.

(** The frames [stream.read] returned. *)
Fixpoint captured (h : list action) : list bytes :=
  match h with
  | [] => []
  | A_read _ (Ok data) :: h' => data :: captured h'
  | _ :: h' => captured h'
  end.

(** The frames the callback was called with. *)
Fixpoint sunk (h : list action) : list bytes :=
  match h with
  | [] => []
  | A_callback data _ :: h' => data :: sunk h'
  | _ :: h' => sunk h'
  end.

(** The number of events yielded since the last frame was fed to the
    recognizer; [None] when no frame was fed yet. *)
Fixpoint yielded_since_feed (h : list action) : option nat :=
  match h with
  | [] => None
  | A_AcceptWaveform _ _ :: _ => Some O
  | A_yield _ :: h' => option_map S (yielded_since_feed h')
  | _ :: h' => yielded_since_feed h'
  end.

(** Every event was yielded for a frame fed to the recognizer, for which
    no event had been yielded yet. *)
Fixpoint one_event_per_frame (h : list action) : Prop :=
  match h with
  | [] => True
  | A_yield _ :: h' => yielded_since_feed h' = Some O /\ one_event_per_frame h'
  | _ :: h' => one_event_per_frame h'
  end.

(** The frames the callback was called with since a frame was last fed
    to the recognizer, latest first. *)
Fixpoint offered_since_feed (h : list action) : list bytes :=
  match h with
  | [] => []
  | A_AcceptWaveform _ _ :: _ => []
  | A_callback data _ :: h' => data :: offered_since_feed h'
  | _ :: h' => offered_since_feed h'
  end.

(** Whenever a frame was fed to the recognizer, the latest call of the
    callback, made since the previous frame was fed, was for this very
    frame. *)
Fixpoint sink_before_feed (h : list action) : Prop :=
  match h with
  | [] => True
  | A_AcceptWaveform data _ :: h' =>
      hd_error (offered_since_feed h') = Some data /\ sink_before_feed h'
  | _ :: h' => sink_before_feed h'
  end.

(** An event yielded on top of the history [h] is classified as the
    recognizer answered for the frame: a completed utterance gives a
    [final] event whose text comes from [Result()], anything else a
    [partial] event whose text comes from [PartialResult()]. *)
Definition classified {W : Type} {E : Env W} (evt : event) (h : list action)
  : Prop :=
  match h with
  | A_Result (Ok payload) :: A_AcceptWaveform _ (Ok true) :: _ =>
      type evt = final
      /\ json_loads payload = Ok (raw_result evt)
      /\ payload_text (lit "text") payload = Ok (text evt)
  | A_PartialResult (Ok payload) :: A_AcceptWaveform _ (Ok false) :: _ =>
      type evt = partial
      /\ json_loads payload = Ok (raw_result evt)
      /\ payload_text (lit "partial") payload = Ok (text evt)
  | _ => False
  end.

Fixpoint every_event_classified {W : Type} {E : Env W} (h : list action)
  : Prop :=
  match h with
  | [] => True
  | A_yield evt :: h' => classified evt h' /\ every_event_classified h'
  | _ :: h' => every_event_classified h'
  end.

(** Actions that are no part of the processing of a frame. *)
Definition neutral (a : action) : bool :=
  match a with
  | A_read _ _ | A_callback _ _ | A_AcceptWaveform _ _ | A_Result _
  | A_PartialResult _ | A_yield _ => false
  | _ => true
  end.

(** [h'] is [h] with neutral actions added. *)
Definition grown (h h' : list action) : Prop :=
  exists d, h' = d ++ h /\ forallb neutral d = true.

(** A generator that would run code when resumed. *)
Definition alive (g : gen_state) : bool :=
  match g with
  | GEN_CREATED | GEN_SUSPENDED => true
  | _ => false
  end.

(** A generator keeps a property [Inv] of the history: [Inv true] while
    it can still run, [Inv false] afterwards. *)
Definition keeps {W K : Type} (Inv : bool -> list action -> Prop)
  (gen : gen_state -> send -> nat -> St W K -> resumed * St W K) : Prop :=
  forall g s fuel st,
    Inv (alive g) (hist st) ->
    Inv (alive (state_after (fst (gen g s fuel st))))
      (hist (snd (gen g s fuel st))).

(** The state a sequence of operations leaves. *)
Definition final_state {W K : Type} (x : list resumed * gen_state * St W K)
  : St W K := snd x.

(** What the operations gave back to the caller. *)
Definition surfaced {W K : Type} (x : list resumed * gen_state * St W K)
  : list resumed := fst (fst x).


(** The text of an event is not blank. *)
Definition nonblank (evt : event) : Prop := strip (text evt) <> [].

Definition frames_and_texts (_ : bool) (h : list action) : Prop :=
  one_event_per_frame h /\ Forall nonblank (yields h).

(** With a callback: it was called with every captured frame, in order,
    and before the frame went to the recognizer. *)
Definition sink_served (_ : bool) (h : list action) : Prop :=
  sink_before_feed h /\ sunk h = captured h.

(** The statement that, with the callback [f] passed, the operations
    [ops] on [transcribe_stream] leave a history in which the callback
    was called with every captured frame, in order, and before the frame
    went to the recognizer. *)
Definition sink_gets_every_frame {W K : Type} {E : Env W} (f : callback K)
  (ops : list op) (fuel : nat) (g : gen_state) (st : St W K) : Prop :=
  let h := hist (final_state (consume (ts_resume (Some f)) ops fuel g st)) in
  sunk h = captured h /\ sink_before_feed h.

(** The release calls of [cleanup] fail with nothing but subclasses of
    [Exception]. *)
Definition release_errors_are_Exceptions {W : Type} (E : Env W) : Prop :=
  (forall h w e, fst (stream_stop_stream h w) = Raise e ->
                 isinstance_Exception e = true)
  /\ (forall h w e, fst (stream_close h w) = Raise e ->
                    isinstance_Exception e = true)
  /\ (forall h w e, fst (pa_terminate h w) = Raise e ->
                    isinstance_Exception e = true).

(** The callback fails with nothing but subclasses of [Exception]. *)
Definition callback_errors_are_Exceptions {K : Type} (f : callback K) : Prop :=
  forall data k e, fst (f data k) = Raise e -> isinstance_Exception e = true.

(** The object holds no handle at all. *)
Definition holds_no_handle (o : LiveTranscriber) : Prop :=
  stream o = None /\ p o = None /\ model o = None /\ recognizer o = None.

(** The state after [n] calls of [cleanup] in succession. *)
Fixpoint cleanups {W K : Type} {E : Env W} (n : nat) (st : St W K) : St W K :=
  match n with
  | O => st
  | S n' => snd (cleanup (cleanups n' st))
  end.

(** The object with another model. *)
Definition with_model {W K : Type} (m : option handle) (st : St W K)
  : St W K :=
  mkSt {| config := config (self st); model := m;
          recognizer := recognizer (self st); stream := stream (self st);
          p := p (self st) |}
       (world st) (sink st) (hist st).

(** A generator whose body has been entered, or is entered by [o]. *)
Definition started (g : gen_state) (o : op) : bool :=
  match g, o with
  | GEN_SUSPENDED, _ => true
  | GEN_CREATED, op_next => true
  | _, _ => false
  end.

(** [h'] is [h] with further actions. *)
Definition extends (h h' : list action) : Prop := exists d, h' = d ++ h.

(** Two states with the same object and the same world. *)
Definition same_session {W K K' : Type} (a : St W K) (b : St W K') : Prop :=
  self a = self b /\ world a = world b.

(** A method body that reads neither the state of the callback nor the
    history: in two states with the same object and world it gives the
    same outcome and leaves the same object and world. *)
Definition blind {W K A : Type} (m : M (W := W) (K := K) A) : Prop :=
  forall st1 st2 : St W K,
    same_session st1 st2 ->
    fst (m st1) = fst (m st2) /\ same_session (snd (m st1)) (snd (m st2)).

(** Two generators that give the same to the caller and leave the same
    object and world. *)
Definition alike {W K : Type}
  (gen1 gen2 : gen_state -> send -> nat -> St W K -> resumed * St W K)
  : Prop :=
  forall g s fuel st1 st2,
    same_session st1 st2 ->
    fst (gen1 g s fuel st1) = fst (gen2 g s fuel st2)
    /\ same_session (snd (gen1 g s fuel st1)) (snd (gen2 g s fuel st2)).

(** The statement that [cleanup], called in the state [st], raises
    nothing and leaves the object without any handle. *)
Definition close_leaves_no_handle {W K : Type} {E : Env W} (st : St W K)
  : Prop :=
  fst (cleanup st) = Ok tt /\ holds_no_handle (self (snd (cleanup st))).

(** The statement that [cleanup], called in the state [st], releases
    the audio handles and then the recognizer and the model. *)
Definition close_releases_both {W K : Type} {E : Env W} (st : St W K)
  : Prop :=
  let o := self (snd (cleanup st)) in
  (stream o = None /\ p o = None) /\ (recognizer o = None /\ model o = None).

(** The statement that [setup_audio_stream], called in a state [st]
    where no model is loaded, fails with the error of a wrong state and
    leaves no audio handle. *)
Definition open_before_load_fails {W K : Type} {E : Env W} (st : St W K)
  : Prop :=
  model (self st) = None ->
  (exists msg, fst (setup_audio_stream st) = Raise (RuntimeError msg))
  /\ stream (self (snd (setup_audio_stream st))) = None
  /\ p (self (snd (setup_audio_stream st))) = None.

(** Between the states [st] and [st'], [cleanup] was called, and it
    was the last thing done: [st'] is the state [cleanup] left.  If that
    call returned, the audio attributes are [None] in [st']. *)
Definition cleaned_up {W K : Type} {E : Env W} (st st' : St W K) : Prop :=
  exists st0,
    extends (hist st) (hist st0)
    /\ st' = snd (cleanup st0)
    /\ (fst (cleanup st0) = Ok tt ->
        stream (self st') = None /\ p (self st') = None).

(** The statement that an operation of the caller on the generator
    [run] that leaves it closed has called [cleanup] before the caller
    is given the outcome. *)
Definition ends_after_cleanup {W K : Type} {E : Env W}
  (cb : option (callback K)) (g : gen_state) (o : op) (fuel : nat)
  (st : St W K) : Prop :=
  let out := gen_op (run_resume cb) g o fuel st in
  snd (fst out) = GEN_CLOSED -> cleaned_up st (snd out).

(* ================================================================== *)
(** ** Construction, and further readings of a history *)

(** The argument [config] of [__init__]: a path, [None], or an object
    taken to be a configuration. *)
Inductive config_arg :=
| ArgPath (path : pystr)
| ArgNone
| ArgObject (c : Config).

(** [__init__] (lines 66-89).  [ConfigManager] is the module attribute of
    lines 49-58: [None] when both imports failed, otherwise the class,
    whose call may raise. *)
Definition construct (ConfigManager : option (pystr -> result Config))
  (arg : config_arg) : result LiveTranscriber :=
  match arg with
  | ArgPath path =>
      match ConfigManager with
      | None =>
          Raise (RuntimeError
                   "ConfigManager import failed; cannot instantiate from path.")
      | Some new =>
          match new path with
          | Ok c => Ok (init c)
          | Raise e => Raise e
          end
      end
  | ArgNone =>
      Raise (ValueError
               "config must be a ConfigManager instance or path to config file.")
  | ArgObject c => Ok (init c)
  end.

(** The frames [AcceptWaveform] was called with. *)
Fixpoint fed (h : list action) : list bytes :=
  match h with
  | [] => []
  | A_AcceptWaveform data _ :: h' => data :: fed h'
  | _ :: h' => fed h'
  end.

(** The number of calls of [SetWords]. *)
Fixpoint set_words_calls (h : list action) : nat :=
  match h with
  | [] => O
  | A_SetWords _ :: h' => S (set_words_calls h')
  | _ :: h' => set_words_calls h'
  end.

(** The keyword arguments of the calls of [PyAudio.open]. *)
Fixpoint opened_with (h : list action) : list open_kwargs :=
  match h with
  | [] => []
  | A_open kw _ :: h' => kw :: opened_with h'
  | _ :: h' => opened_with h'
  end.

(** The callback, if there is one, fails with nothing but subclasses of
    [Exception]. *)
Definition callback_never_escapes {K : Type} (cb : option (callback K))
  : Prop :=
  match cb with
  | Some f => callback_errors_are_Exceptions f
  | None => True
  end.

(** What a closed generator answers to an operation. *)
Definition closed_answer (o : op) : resumed :=
  match o with
  | op_next => StopIteration
  | op_throw e => Raised e
  | op_close => Returned
  end.

(* ================================================================== *)
(** ** Paths, and the search for the project root

    POSIX paths.  A path as the program writes it begins with no slash,
    with one slash, or with two slashes exactly, which
    [os.path.normpath] keeps apart from one (three slashes and more
    count as one); then come its components in order.  [.], [..] and
    empty components are resolved when the path is made absolute.  A
    directory is known by its normalized absolute path, as
    [os.path.abspath] returns it: whether it hangs on the root of two
    slashes, and the list of its components, innermost first.  The file
    system is asked through oracles on normalized absolute paths. *)

Module Path.

Inductive anchor := Relative | Root | DoubleRoot.

Record dirpath := {
  double : bool;
  comps : list pystr
}.

Record pathname := {
  lead : anchor;
  parts : list pystr
}.

(** [os.path.isabs] *)
Definition is_abs (pn : pathname) : bool :=
  match lead pn with
  | Relative => false
  | _ => true
  end.

Definition dot : pystr := lit ".".

Definition dotdot : pystr := lit "..".

(** A component that [os.path.normpath] keeps. *)
Definition kept (c : pystr) : bool :=
  negb (PyStr.eqb c [] || PyStr.eqb c dot || PyStr.eqb c dotdot).

(** [os.path.normpath] on an absolute path: from the components [dir],
    the components are followed; [..] at a root stays at the root. *)
Fixpoint follow (dir : list pystr) (parts : list pystr) : list pystr :=
  match parts with
  | [] => dir
  | c :: rest =>
      if PyStr.eqb c [] || PyStr.eqb c dot then follow dir rest
      else if PyStr.eqb c dotdot then follow (tl dir) rest
      else follow (c :: dir) rest
  end.

(** [os.path.abspath(pn)] in the working directory [cwd]. *)
Definition abspath (cwd : dirpath) (pn : pathname) : dirpath :=
  match lead pn with
  | Relative =>
      {| double := double cwd; comps := follow (comps cwd) (parts pn) |}
  | Root => {| double := false; comps := follow [] (parts pn) |}
  | DoubleRoot => {| double := true; comps := follow [] (parts pn) |}
  end.

(** [os.path.join(a, b)]: an absolute [b] discards [a]. *)
Definition join (a b : pathname) : pathname :=
  if is_abs b then b
  else {| lead := lead a; parts := parts a ++ parts b |}.

(** The name of a directory, as a path. *)
Definition of_dir (d : dirpath) : pathname :=
  {| lead := if double d then DoubleRoot else Root; parts := rev (comps d) |}.

(** A relative path of one component. *)
Definition name (s : string) : pathname :=
  {| lead := Relative; parts := [lit s] |}.

(** [os.sep] *)
Definition sep : pathname := {| lead := Root; parts := [] |}.

(** [os.path.dirname] of a normalized absolute path; a root is its own
    directory. *)
Definition dirname (d : dirpath) : dirpath :=
  {| double := double d; comps := tl (comps d) |}.

(** Equality of normalized absolute paths, which is that of the strings. *)
Definition eqb (a b : dirpath) : bool :=
  Bool.eqb (double a) (double b)
  && if list_eq_dec (list_eq_dec N.eq_dec) (comps a) (comps b)
     then true else false.

(** A path without components that normalization would remove. *)
Definition clean (d : dirpath) : Prop := forallb kept (comps d) = true.

(** The entry [c] of the directory [d]. *)
Definition child (c : pystr) (d : dirpath) : dirpath :=
  {| double := double d; comps := c :: comps d |}.

(** The components in order, with a slash between two of them. *)
Fixpoint slashed (l : list pystr) : pystr :=
  match l with
  | [] => []
  | [c] => c
  | c :: rest => c ++ lit "/" ++ slashed rest
  end.

(** The string of a normalized absolute path. *)
Definition to_str (d : dirpath) : pystr :=
  (if double d then lit "//" else lit "/") ++ slashed (rev (comps d)).

Fixpoint suffixes (l : list pystr) : list (list pystr) :=
  l :: match l with
       | [] => []
       | _ :: up => suffixes up
       end.

(** The directory [d] and the directories above it, nearest first, up to
    the root it hangs on. *)
Definition ancestors (d : dirpath) : list dirpath :=
  map (fun l => {| double := double d; comps := l |}) (suffixes (comps d)).

End Path.

(** The folder looked for. *)
Definition marker : pystr := lit "transcripts_pipeline".

(** Lines 30-38: the loop of [find_project_root_with_transcripts_pipeline],
    from the directory [cur], with [root] as computed in line 30.
    [fuel] bounds the number of passes; the inner [None] is the [None]
    the function returns, the outer one the fuel running out. *)
Fixpoint search_up (cwd : Path.dirpath) (isdir : Path.dirpath -> bool)
  (fuel : nat) (cur : Path.dirpath) : option (option Path.dirpath) :=
  match fuel with
  | O => None
  | S fuel' =>
      let root := Path.abspath cwd Path.sep in
      let candidate :=
        Path.join (Path.of_dir cur) (Path.name "transcripts_pipeline") in
      if isdir (Path.abspath cwd candidate) then Some (Some cur)
      else if Path.eqb cur root then Some None
      else
        search_up cwd isdir fuel'
          (Path.abspath cwd (Path.join (Path.of_dir cur) (Path.name "..")))
  end.

(** Where the search starts (lines 26-29): the given path, or the
    directory of the file of the module. *)
Definition search_start (cwd : Path.dirpath) (file : Path.pathname)
  (start_path : option Path.pathname) : Path.dirpath :=
  Path.abspath cwd
    match start_path with
    | Some s => s
    | None => Path.of_dir (Path.dirname (Path.abspath cwd file))
    end.

(** [find_project_root_with_transcripts_pipeline] (lines 20-38), with
    fuel for one pass per component of the start and one for the root. *)
Definition find_project_root_with_transcripts_pipeline
  (cwd : Path.dirpath) (file : Path.pathname) (isdir : Path.dirpath -> bool)
  (start_path : option Path.pathname) : option (option Path.dirpath) :=
  let cur := search_start cwd file start_path in
  search_up cwd isdir (S (List.length (Path.comps cur))) cur.

(** Lines 41-44: the project root, when it is found and its string is
    not empty, is put in front of [sys.path] unless it is there. *)
Definition add_project_root (root : option Path.dirpath)
  (sys_path : list pystr) : list pystr :=
  match root with
  | Some r =>
      let _project_root := Path.to_str r in
      if truthy _project_root then
        if existsb (PyStr.eqb _project_root) sys_path then sys_path
        else _project_root :: sys_path
      else sys_path
  | None => sys_path
  end.

(* ================================================================== *)
(** ** The configuration manager ([conf_reader.py])

    The parser of the standard library is an oracle: the sections it
    holds and what its getters return or raise. *)

Record ConfigParser := {
  cp_sections : list pystr;
  cp_get : pystr -> pystr -> result pystr;
  cp_getint : pystr -> pystr -> result Z;
  cp_getboolean : pystr -> pystr -> result bool
}.

(** [self.config.has_section(sec)] *)
Definition has_section (cp : ConfigParser) (sec : pystr) : bool :=
  existsb (PyStr.eqb sec) (cp_sections cp).

Definition required_sections : list pystr :=
  [lit "vosk"; lit "audio"; lit "recording"; lit "whisper"; lit "output"].

(** The list [missing_sections] of [_validate_config]. *)
Definition missing_sections (cp : ConfigParser) : list pystr :=
  filter (fun sec => negb (has_section cp sec)) required_sections.

(** [_validate_config] (lines 111-127).  The message of the error is
    given without the list that is formatted into it. *)
Definition validate_config (cp : ConfigParser) : result unit :=
  match missing_sections cp with
  | [] => Ok tt
  | _ :: _ => Raise (ValueError "Missing required sections")
  end.

(** The list [search_paths] of [_find_config_file] (lines 86-97);
    [script_dir] is the directory of [conf_reader.py], made absolute. *)
Definition search_paths (cwd script_dir : Path.dirpath)
  (config_file : Path.pathname) : list Path.pathname :=
  let project_root := Path.dirname (Path.dirname script_dir) in
  let here := Path.of_dir script_dir in
  [ config_file;
    Path.join (Path.of_dir cwd) config_file;
    Path.join here config_file;
    Path.join (Path.join here (Path.name "conf")) config_file;
    Path.join
      (Path.join (Path.of_dir (Path.dirname script_dir)) (Path.name "conf"))
      config_file;
    Path.join
      (Path.join
         (Path.join (Path.of_dir project_root)
            (Path.name "transcripts_pipeline"))
         (Path.name "conf"))
      config_file;
    Path.join
      (Path.join
         (Path.join
            (Path.join (Path.join here (Path.name "..")) (Path.name ".."))
            (Path.name "transcripts_pipeline"))
         (Path.name "conf"))
      config_file ].

(** Lines 99-109: the candidates are made absolute and probed in turn.
    The result comes with the probes made, each with its outcome, as
    they are printed. *)
Fixpoint probe (cwd : Path.dirpath) (exists_ : Path.dirpath -> bool)
  (paths : list Path.pathname)
  : list (Path.dirpath * bool) * option Path.dirpath :=
  match paths with
  | [] => ([], None)
  | pth :: rest =>
      let abs_path := Path.abspath cwd pth in
      if exists_ abs_path then ([(abs_path, true)], Some abs_path)
      else
        let (probes, found) := probe cwd exists_ rest in
        ((abs_path, false) :: probes, found)
  end.

(** [_find_config_file] (lines 82-109). *)
Definition find_config_file (cwd script_dir : Path.dirpath)
  (exists_ : Path.dirpath -> bool) (config_file : Path.pathname)
  : list (Path.dirpath * bool) * option Path.dirpath :=
  probe cwd exists_ (search_paths cwd script_dir config_file).

(** [ConfigManager.__init__] (lines 32-60).  Reading the raw file and
    parsing it are oracles: [read_raw] is [_read_and_validate_file]
    (lines 62-80), which raises what opening or reading the file raises,
    and [parse] is [self.config.read].  The result comes with the files
    touched, in order; the message of the error is given without the
    name that is formatted into it. *)
Inductive file_action :=
| F_probe (path : Path.dirpath) (found : bool)
| F_read (path : Path.dirpath)
| F_parse (path : Path.dirpath).

Definition ConfigManager_init (cwd script_dir : Path.dirpath)
  (exists_ : Path.dirpath -> bool)
  (read_raw : Path.dirpath -> result unit)
  (parse : Path.dirpath -> result ConfigParser)
  (config_file : Path.pathname) : list file_action * result ConfigParser :=
  let (probes, found) := find_config_file cwd script_dir exists_ config_file in
  let probed := map (fun pr => F_probe (fst pr) (snd pr)) probes in
  match found with
  | None => (probed, Raise (FileNotFoundError "Configuration file not found"))
  | Some actual =>
      match read_raw actual with
      | Raise e => (probed ++ [F_read actual], Raise e)
      | Ok _ =>
          match parse actual with
          | Raise e => (probed ++ [F_read actual; F_parse actual], Raise e)
          | Ok cp =>
              (probed ++ [F_read actual; F_parse actual],
               match validate_config cp with
               | Ok _ => Ok cp
               | Raise e => Raise e
               end)
          end
      end
  end.

(** The properties of [ConfigManager] the transcriber reads (lines
    130-158), as the duck-typed configuration: each asks the parser.
    [pyaudio_attr] gives the value of an attribute of the module
    [pyaudio], when it has it, for [wav_format]; the class has no
    attribute [device_index]. *)
Definition manager_config (cp : ConfigParser)
  (pyaudio_attr : pystr -> option Z) : Config :=
  {| vosk_model_path :=
       match cp_get cp (lit "vosk") (lit "MODEL_PATH") with
       | Ok s => Ok (Some s)
       | Raise e => Raise e
       end;
     vosk_enable_word_timing :=
       Some (cp_getboolean cp (lit "vosk") (lit "ENABLE_WORD_TIMING"));
     sample_rate := cp_getint cp (lit "audio") (lit "SAMPLE_RATE");
     channels := cp_getint cp (lit "audio") (lit "CHANNELS");
     frame_per_buffer := cp_getint cp (lit "audio") (lit "FRAME_PER_BUFFER");
     wav_format :=
       match cp_get cp (lit "audio") (lit "WAV_FORMAT") with
       | Ok fmt =>
           match pyaudio_attr fmt with
           | Some c => Ok (PaConstant c)
           | None => Ok (FormatName fmt)
           end
       | Raise e => Raise e
       end;
     device_index := None |}.

(** [create_directories] (lines 187-193), over a state [F] of the file
    system: the two directories are read from the parser, then made one
    after the other.  The result comes with the calls of [os.makedirs]
    and their outcomes. *)
Fixpoint make_each {F : Type} (makedirs : pystr -> F -> result unit * F)
  (paths : list pystr) (fs : F)
  : list (pystr * result unit) * result unit * F :=
  match paths with
  | [] => ([], Ok tt, fs)
  | path :: rest =>
      let (r, fs') := makedirs path fs in
      match r with
      | Raise e =>
          if isinstance_Exception e then
            let '(made, out, fs'') := make_each makedirs rest fs' in
            ((path, r) :: made, out, fs'')
          else ([(path, r)], Raise e, fs')
      | Ok _ =>
          let '(made, out, fs'') := make_each makedirs rest fs' in
          ((path, r) :: made, out, fs'')
      end
  end.

Definition create_directories {F : Type} (cp : ConfigParser)
  (makedirs : pystr -> F -> result unit * F) (fs : F)
  : list (pystr * result unit) * result unit * F :=
  match cp_get cp (lit "recording") (lit "OUTPUT_DIR") with
  | Raise e => ([], Raise e, fs)
  | Ok output_dir =>
      match cp_get cp (lit "output") (lit "TRANSCRIPT_DIR") with
      | Raise e => ([], Raise e, fs)
      | Ok transcript_dir =>
          make_each makedirs [output_dir; transcript_dir] fs
      end
  end.

(* ================================================================== *)
(** ** A test bench

    Collaborators for concrete runs: a device that hands out numbered
    frames, and the recognizer of the scenario of the specification,
    which completes an utterance on every fifth frame, with the final
    text "hello world" and the partial text "hel".  The world is the
    number of frames read so far. *)

Module Bench.

Record faults := {
  bad_model : bool;
  bad_device : bool;
  read_error : nat -> option exn;
  accept_error : nat -> option exn;
  release_error : option exn
}.

Definition healthy : faults :=
  {| bad_model := false; bad_device := false;
     read_error := fun _ => None; accept_error := fun _ => None;
     release_error := None |}.

(** The device cannot be opened. *)
Definition no_device : faults :=
  {| bad_model := false; bad_device := true;
     read_error := fun _ => None; accept_error := fun _ => None;
     release_error := None |}.

(** The device fails at the first read. *)
Definition lost : faults :=
  {| bad_model := false; bad_device := false;
     read_error := fun _ => Some (OtherException "OSError");
     accept_error := fun _ => None;
     release_error := None |}.

(** The first read raises [StopIteration]. *)
Definition stopping : faults :=
  {| bad_model := false; bad_device := false;
     read_error := fun _ => Some Stop_Iteration;
     accept_error := fun _ => None;
     release_error := None |}.

(** The user interrupts the third read. *)
Definition interrupted : faults :=
  {| bad_model := false; bad_device := false;
     read_error := fun w =>
       if Nat.eqb w 2 then Some KeyboardInterrupt else None;
     accept_error := fun _ => None;
     release_error := None |}.

(** The recognizer refuses the first frame. *)
Definition flaky : faults :=
  {| bad_model := false; bad_device := false;
     read_error := fun _ => None;
     accept_error := fun w =>
       if Nat.eqb w 1 then Some (OtherException "Exception") else None;
     release_error := None |}.

(** Every release call fails. *)
Definition stuck : faults :=
  {| bad_model := false; bad_device := false;
     read_error := fun _ => None; accept_error := fun _ => None;
     release_error := Some (OtherException "OSError") |}.

Definition frame (n : nat) : bytes := repeat x2a (S n).

Definition quote : pystr := [34%N].

(** The JSON text of a dict with one entry. *)
Definition payload (key value : string) : pystr :=
  lit "{" ++ quote ++ lit key ++ quote ++ lit ": " ++ quote ++ lit value
  ++ quote ++ lit "}".

Definition final_payload : pystr := payload "text" " hello world ".

Definition partial_payload : pystr := payload "partial" "hel".

(** [json.loads] on the two payloads of the bench. *)
Definition loads (s : pystr) : result json :=
  if PyStr.eqb s final_payload then
    Ok (JDict [(lit "text", JStr (lit " hello world "))])
  else if PyStr.eqb s partial_payload then
    Ok (JDict [(lit "partial", JStr (lit "hel"))])
  else Raise (OtherException "JSONDecodeError").

Definition failing {A : Type} (e : option exn) (a : A) : result A :=
  match e with
  | Some x => Raise x
  | None => Ok a
  end.

Definition env (f : faults) : Env nat :=
  {| PyAudio := fun w => (Ok 1%nat, w);
     pa_open := fun _ _ w =>
       (if bad_device f then Raise (OtherException "OSError") else Ok 2%nat,
        w);
     pa_terminate := fun _ w => (failing (release_error f) tt, w);
     stream_read := fun _ _ w =>
       match read_error f w with
       | Some e => (Raise e, w)
       | None => (Ok (frame w), S w)
       end;
     stream_stop_stream := fun _ w => (failing (release_error f) tt, w);
     stream_close := fun _ w => (failing (release_error f) tt, w);
     Model := fun _ w =>
       (if bad_model f then Raise (OtherException "Exception") else Ok 3%nat,
        w);
     KaldiRecognizer := fun _ _ w => (Ok 4%nat, w);
     has_SetWords := fun _ => true;
     SetWords := fun _ _ w => (Ok tt, w);
     AcceptWaveform := fun _ _ w =>
       (failing (accept_error f w) (Nat.eqb (Nat.modulo w 5) 0), w);
     Result := fun _ w => (Ok final_payload, w);
     PartialResult := fun _ w => (Ok partial_payload, w);
     json_loads := loads;
     now_isoformat := fun w => (lit "2024-01-01T00:00:00", w) |}.

(** The configuration of the scenario. *)
Definition conf : Config :=
  {| vosk_model_path := Ok (Some (lit "model"));
     vosk_enable_word_timing := Some (Ok true);
     sample_rate := Ok 16000%Z;
     channels := Ok 1%Z;
     frame_per_buffer := Ok 1024%Z;
     wav_format := Ok (PaConstant 8);
     device_index := None |}.

(** A callback that is a collection of the frames it was called with:
    its state is their number, and it is false while it is empty. *)
Definition collecting_sink : callback nat :=
  {| cb_bool := fun k => negb (Nat.eqb k 0);
     cb_call := fun _ k => (Ok tt, S k) |}.

(** A callback that counts its calls and raises on every one. *)
Definition failing_sink : callback nat :=
  {| cb_bool := fun _ => true;
     cb_call := fun _ k => (Raise (OtherException "OSError"), S k) |}.

(** A fresh object, before any method was called. *)
Definition fresh : St nat nat := mkSt (init conf) O O [].

(** The object after [load_model], [setup_audio_stream] and
    [start_recognition] all succeeded. *)
Definition ready : St nat nat :=
  mkSt {| config := conf; model := Some 3%nat; recognizer := Some 4%nat;
          stream := Some 2%nat; p := Some 1%nat |} O O [].

(** The recognizer answering with given payloads, and a [json.loads]
    that also knows an empty object and a list. *)
Definition loads_more (s : pystr) : result json :=
  if PyStr.eqb s (lit "{}") then Ok (JDict [])
  else if PyStr.eqb s (lit "[]") then Ok (JList [])
  else loads s.

Definition env_answering (f : faults) (fin part : pystr) : Env nat :=
  {| PyAudio := PyAudio (Env := env f);
     pa_open := pa_open (Env := env f);
     pa_terminate := pa_terminate (Env := env f);
     stream_read := stream_read (Env := env f);
     stream_stop_stream := stream_stop_stream (Env := env f);
     stream_close := stream_close (Env := env f);
     Model := Model (Env := env f);
     KaldiRecognizer := KaldiRecognizer (Env := env f);
     has_SetWords := fun _ => true;
     SetWords := fun _ _ w => (Raise (OtherException "Exception"), w);
     AcceptWaveform := AcceptWaveform (Env := env f);
     Result := fun _ w => (Ok fin, w);
     PartialResult := fun _ w => (Ok part, w);
     json_loads := loads_more;
     now_isoformat := now_isoformat (Env := env f) |}.

(** The configuration with a device index, and with no model path. *)
Definition conf_device (d : Z) : Config :=
  {| vosk_model_path := vosk_model_path conf;
     vosk_enable_word_timing := vosk_enable_word_timing conf;
     sample_rate := sample_rate conf;
     channels := channels conf;
     frame_per_buffer := frame_per_buffer conf;
     wav_format := wav_format conf;
     device_index := Some (Ok d) |}.

Definition conf_no_model : Config :=
  {| vosk_model_path := Ok (Some []);
     vosk_enable_word_timing := vosk_enable_word_timing conf;
     sample_rate := sample_rate conf;
     channels := channels conf;
     frame_per_buffer := frame_per_buffer conf;
     wav_format := wav_format conf;
     device_index := None |}.

(** A parser holding the five sections, with a sample format that
    [pyaudio] does not know. *)
Definition parser : ConfigParser :=
  {| cp_sections := required_sections;
     cp_get := fun sec opt =>
       if PyStr.eqb opt (lit "WAV_FORMAT") then Ok (lit "paInt17")
       else if PyStr.eqb opt (lit "OUTPUT_DIR") then Ok (lit "recordings")
       else if PyStr.eqb opt (lit "TRANSCRIPT_DIR") then Ok (lit "transcripts")
       else Ok (lit "model");
     cp_getint := fun sec opt => Ok 1%Z;
     cp_getboolean := fun sec opt => Ok true |}.

Definition pyaudio_attr (s : pystr) : option Z :=
  if PyStr.eqb s (lit "paInt16") then Some 8%Z else None.

(** A file system: the project is [/home/u/proj], with its folder
    [transcripts_pipeline], where the configuration file is in
    [conf]. *)
Definition proj : Path.dirpath :=
  {| Path.double := false;
     Path.comps := [lit "proj"; lit "u"; lit "home"] |}.

Definition script_dir : Path.dirpath :=
  Path.child (lit "confreader") (Path.child (lit "transcripts_pipeline") proj).

Definition conf_file : Path.dirpath :=
  Path.child (lit "transcription.conf")
    (Path.child (lit "conf") (Path.child (lit "transcripts_pipeline") proj)).

Definition isdir (d : Path.dirpath) : bool :=
  Path.eqb d (Path.child (lit "transcripts_pipeline") proj).

Definition file_exists (d : Path.dirpath) : bool := Path.eqb d conf_file.

(** [os.makedirs] that cannot make the recording directory. *)
Definition makedirs (path : pystr) (made : list pystr)
  : result unit * list pystr :=
  if PyStr.eqb path (lit "recordings")
  then (Raise (OtherException "PermissionError"), made)
  else (Ok tt, path :: made).

(** The kinds and texts of the events in what a caller received. *)
Fixpoint transcript (rs : list resumed) : list (kind * pystr) :=
  match rs with
  | [] => []
  | Yielded evt :: rs' => (type evt, text evt) :: transcript rs'
  | _ :: rs' => transcript rs'
  end.

End Bench.

(* ================================================================== *)
(** ** Facts about stripping *)

Lemma lstrip_fixed (c : N) (s : pystr) :
  isspace c = false -> lstrip (c :: s) = c :: s.
Proof. intros Hc. simpl. now rewrite Hc. Qed.

(** Stripping the right end keeps a non-blank first character. *)
Lemma rstrip_head (c : N) (s : pystr) :
  isspace c = false -> exists t, rstrip (c :: s) = c :: t.
Proof.
  intros Hc. unfold rstrip. simpl.
  induction (rev s) as [|a r IH]; simpl.
  - rewrite Hc. simpl. now exists [].
  - destruct (isspace a).
    + exact IH.
    + simpl. rewrite rev_app_distr. simpl. now eexists.
Qed.

Lemma rstrip_idem (s : pystr) : rstrip (rstrip s) = rstrip s.
Proof.
  unfold rstrip. rewrite rev_involutive. f_equal.
  induction (rev s) as [|a r IH]; simpl; [reflexivity|].
  destruct (isspace a) eqn:Ha; [exact IH|].
  simpl. now rewrite Ha.
Qed.

Lemma lstrip_rstrip_lstrip (s : pystr) :
  lstrip (rstrip (lstrip s)) = rstrip (lstrip s).
Proof.
  induction s as [|c s IH]; simpl; [reflexivity|].
  destruct (isspace c) eqn:Hc; [exact IH|].
  destruct (rstrip_head c s Hc) as [t Ht]. rewrite Ht.
  now apply lstrip_fixed.
Qed.

Lemma strip_idem (s : pystr) : strip (strip s) = strip s.
Proof.
  unfold strip. rewrite lstrip_rstrip_lstrip. apply rstrip_idem.
Qed.

(* ================================================================== *)
(** ** Tactics *)

(** Splits on every outcome met on the way through a method body. *)
Ltac split_scrutinee x :=
  lazymatch x with
  | context [match ?y with _ => _ end] => split_scrutinee y
  | _ => destruct x eqn:?
  end.

Ltac step_through :=
  repeat first
    [ progress (cbn [fst snd hist self world sink app
                     config model recognizer stream p] in * )
    | discriminate
    | match goal with
      | H : (_, _) = (_, _) |- _ => inversion H; subst; clear H
      | H : Ok _ = Ok _ |- _ => inversion H; subst; clear H
      | H : Raise _ = Raise _ |- _ => inversion H; subst; clear H
      | H : context [match ?x with _ => _ end] |- _ => split_scrutinee x
      | |- context [match ?x with _ => _ end] => split_scrutinee x
      end ].

(** Names the actions a method added to the history. *)
Ltac give_delta :=
  cbn [fst snd hist];
  match goal with
  | |- exists d, _ /\ ?a :: ?b :: ?c :: ?d0 :: hist ?st = d ++ hist ?st =>
      exists [a; b; c; d0]
  | |- exists d, _ /\ ?a :: ?b :: ?c :: hist ?st = d ++ hist ?st =>
      exists [a; b; c]
  | |- exists d, _ /\ ?a :: ?b :: hist ?st = d ++ hist ?st => exists [a; b]
  | |- exists d, _ /\ ?a :: hist ?st = d ++ hist ?st => exists [a]
  | |- exists d, _ /\ hist ?st = d ++ hist ?st => exists []
  end;
  split; [|reflexivity].

(* ================================================================== *)
(** ** What the loop body leaves in the history *)

Section Histories.

Context {W K : Type} {E : Env W}.

Lemma read_frame_sound (st : St W K) :
  exists d, read_log (fst (read_frame st)) d
            /\ hist (snd (read_frame st)) = d ++ hist st.
Proof.
  unfold read_frame, attr_of, bind, get, cfg, call, ret, raise.
  step_through;
    solve [ exists []; split; [constructor | reflexivity]
          | eexists [_]; split; [constructor | reflexivity] ].
Qed.


Lemma read_frame_sink (st : St W K) : sink (snd (read_frame st)) = sink st.
Proof.
  unfold read_frame, attr_of, bind, get, cfg, call, ret, raise.
  step_through; reflexivity.
Qed.

Lemma offer_sound (cb : option (callback K)) (data : bytes) (st : St W K) :
  exists d, offer_log data (has_callback cb (sink st))
              (fst (offer cb data st)) d
            /\ hist (snd (offer cb data st)) = d ++ hist st.
Proof.
  unfold offer, try_except, call_callback, print, log, ret.
  destruct cb as [cb|]; cbn [has_callback];
    [destruct (cb_bool cb (sink st))|]; step_through; give_delta.
  - destruct a. apply offer_ok.
  - now apply offer_caught.
  - now apply offer_escaped.
  - apply offer_absent.
  - apply offer_absent.
Qed.

(** Rewrites with the outcomes recorded while stepping through. *)
Ltac use_outcomes :=
  repeat match goal with
         | H : ?x = _ |- context [?x] => rewrite H
         end.

Ltac payload_facts :=
  unfold payload_text; cbn [fetch_key]; use_outcomes;
  solve [reflexivity | assumption].

Ltac close_feed complete :=
  first
    [ exact (feed_unreached _ _)
    | exact (feed_refused _ _)
    | exact (feed_fetch_failed _ complete _)
    | apply (feed_bad_payload _ complete); payload_facts
    | eapply (feed_blank _ complete); [payload_facts | assumption]
    | eapply (feed_event _ complete);
      [eassumption | payload_facts | assumption] ].

Lemma strip_nil_blank : truthy (strip []) = false.
Proof. reflexivity. Qed.

Lemma feed_sound (data : bytes) (st : St W K) :
  exists d, feed_log data (fst (feed data st)) d
            /\ hist (snd (feed data st)) = d ++ hist st.
Proof.
  unfold feed, yield_, py_get, py_strip, attr_of, loads, now, call, get, log,
    bind, ret, raise.
  step_through; give_delta;
    try (rewrite strip_nil_blank in *; discriminate);
    first [close_feed true | close_feed false].
Qed.

Lemma recognize_sound (data : bytes) (st : St W K) :
  exists d, recognize_log data (fst (recognize data st)) d
            /\ hist (snd (recognize data st)) = d ++ hist st.
Proof.
  destruct (feed_sound data st) as (d & Hlog & Hd).
  unfold recognize, try_except, on_vosk_error, print, log, bind, ret.
  destruct (feed data st) as [[s|e] st1]; cbn [fst snd] in *.
  - exists d. split; [|exact Hd].
    apply recognize_through; [assumption | exact I].
  - destruct (isinstance_Exception e) eqn:He; cbn [fst snd hist].
    + eexists (_ :: d). split.
      * apply recognize_skipped with (e := e); assumption.
      * now rewrite Hd.
    + exists d. split; [|exact Hd].
      apply recognize_through; [assumption | exact He].
Qed.

(** One pass through the loop body adds the actions of one frame. *)
Lemma loop_body_sound (cb : option (callback K)) (st : St W K) :
  exists d, frame_log (has_callback cb (sink st)) (fst (loop_body cb st)) d
            /\ hist (snd (loop_body cb st)) = d ++ hist st.
Proof.
  unfold loop_body, bind.
  destruct (read_frame_sound st) as (dr & Hr & Hdr).
  pose proof (read_frame_sink st) as Hsink.
  destruct (read_frame st) as [[data|e] st1]; cbn [fst snd] in *.
  - destruct (offer_sound cb data st1) as (ds & Hs & Hds).
    rewrite Hsink in Hs.
    destruct (offer cb data st1) as [[[]|e] st2]; cbn [fst snd] in *.
    + destruct (recognize_sound data st2) as (df & Hf & Hdf).
      exists (df ++ ds ++ dr). split.
      * now apply frame_processed with (data := data).
      * rewrite Hdf, Hds, Hdr. now rewrite !app_assoc.
    + exists (ds ++ dr). split.
      * now apply frame_sink_escaped with (data := data).
      * rewrite Hds, Hdr. now rewrite app_assoc.
  - exists dr. split; [now apply frame_lost | exact Hdr].
Qed.


Lemma grown_refl (h : list action) : grown h h.
Proof. now exists []. Qed.

Lemma grown_cons (a : action) (h h' : list action) :
  neutral a = true -> grown h h' -> grown h (a :: h').
Proof.
  intros Ha (d & -> & Hd). exists (a :: d). split; [reflexivity|].
  simpl. now rewrite Ha.
Qed.

Lemma grown_trans (h1 h2 h3 : list action) :
  grown h1 h2 -> grown h2 h3 -> grown h1 h3.
Proof.
  intros (d1 & -> & H1) (d2 & -> & H2). exists (d2 ++ d1).
  split; [now rewrite app_assoc|].
  rewrite forallb_app. now rewrite H1, H2.
Qed.

(** Closes a goal [grown h (a1 :: ... :: h)]. *)
Ltac grow :=
  cbn [fst snd hist];
  repeat (apply grown_cons; [reflexivity|]); apply grown_refl.

Lemma load_model_grows (st : St W K) :
  grown (hist st) (hist (snd (load_model st))).
Proof.
  unfold load_model, set_model, update, print, now, call, cfg, log, bind,
    ret, raise.
  step_through; grow.
Qed.

Lemma setup_audio_stream_grows (st : St W K) :
  grown (hist st) (hist (snd (setup_audio_stream st))).
Proof.
  unfold setup_audio_stream, hasattr, getattr, set_p, set_stream, update,
    print, call, cfg, log, bind, ret, raise.
  step_through; grow.
Qed.

Lemma start_recognition_grows (st : St W K) :
  grown (hist st) (hist (snd (start_recognition st))).
Proof.
  unfold start_recognition, try_pass, try_except, getattr_default,
    set_recognizer, update, print, call, cfg, get, log, bind, ret, raise.
  step_through; grow.
Qed.

Lemma run_setup_grows (st : St W K) :
  grown (hist st) (hist (snd (run_setup st))).
Proof.
  unfold run_setup, bind.
  pose proof (load_model_grows st) as H1.
  destruct (load_model st) as [[[]|e] st1]; cbn [fst snd] in *; [|exact H1].
  pose proof (setup_audio_stream_grows st1) as H2.
  destruct (setup_audio_stream st1) as [[[]|e] st2]; cbn [fst snd] in *;
    [|exact (grown_trans _ _ _ H1 H2)].
  pose proof (start_recognition_grows st2) as H3.
  exact (grown_trans _ _ _ H1 (grown_trans _ _ _ H2 H3)).
Qed.

Lemma cleanup_grows (st : St W K) :
  grown (hist st) (hist (snd (cleanup st))).
Proof.
  unfold cleanup, try_pass, try_except, set_stream, set_p, update, print,
    call, get, log, bind, ret, raise.
  step_through; grow.
Qed.

End Histories.

(* ================================================================== *)
(** ** Invariants of the history

    A property of the history that every frame preserves holds whatever
    the caller does with the generator.  [Inv true] is what holds while
    the generator can still run, [Inv false] what holds for ever. *)

Section Invariants.

Context {W K : Type} {E : Env W}.

Variable cb : option (callback K).
Variable Inv : bool -> list action -> Prop.

Hypothesis Inv_closed : forall h, Inv true h -> Inv false h.
Hypothesis Inv_neutral :
  forall b a h, neutral a = true -> Inv b h -> Inv b (a :: h).
Hypothesis Inv_frame :
  forall k r d h,
    frame_log (has_callback cb k) r d -> Inv true h ->
    Inv (match r with Ok _ => true | Raise _ => false end) (d ++ h).

Lemma Inv_grown (b : bool) (h h' : list action) :
  grown h h' -> Inv b h -> Inv b h'.
Proof.
  intros (d & -> & Hd) Hh. induction d as [|a d IH]; [exact Hh|].
  simpl in Hd. apply andb_prop in Hd as [Ha Hd].
  simpl. apply Inv_neutral; auto.
Qed.

Lemma ts_handlers_Inv (e : exn) (st : St W K) :
  Inv false (hist st) -> Inv false (hist (snd (ts_handlers e st))).
Proof.
  intros H. unfold ts_handlers, print, log.
  destruct (isinstance_KeyboardInterrupt e); [now apply Inv_neutral|].
  destruct (isinstance_Exception e); [now apply Inv_neutral | exact H].
Qed.

Lemma ts_handlers_ends (e : exn) (st : St W K) :
  alive (state_after (fst (ts_handlers e st))) = false.
Proof.
  unfold ts_handlers.
  destruct (isinstance_KeyboardInterrupt e); [reflexivity|].
  destruct (isinstance_Exception e); reflexivity.
Qed.

Lemma ts_loop_Inv (fuel : nat) (st : St W K) :
  Inv true (hist st) ->
  Inv (alive (state_after (fst (ts_loop fuel cb st))))
    (hist (snd (ts_loop fuel cb st))).
Proof.
  revert st. induction fuel as [|fuel IH]; intros st H; cbn [ts_loop].
  - now apply Inv_closed.
  - destruct (loop_body_sound cb st) as (d & Hlog & Hd).
    pose proof (Inv_frame _ _ _ _ Hlog H) as Hnew. rewrite <- Hd in Hnew.
    destruct (loop_body cb st) as [[[|evt]|e] st1]; cbn [fst snd] in *.
    + now apply IH.
    + exact Hnew.
    + rewrite ts_handlers_ends. now apply ts_handlers_Inv.
Qed.

Lemma leaving_state (r : resumed) : state_after (leaving r) = state_after r.
Proof. destruct r; reflexivity. Qed.

Lemma leave_Inv (out : resumed * St W K) :
  Inv (alive (state_after (fst out))) (hist (snd out)) ->
  Inv (alive (state_after (fst (leave out)))) (hist (snd (leave out))).
Proof. unfold leave. cbn [fst snd]. now rewrite leaving_state. Qed.

Lemma ts_resume_preserves : keeps Inv (ts_resume cb).
Proof.
  intros g s fuel st H.
  destruct g, s as [|e]; cbn [ts_resume alive] in *;
    try (cbn [leave leaving fst snd state_after alive]; auto; fail).
  - unfold ts_enter, print, log, bind, get, ret, raise.
    destruct (stream (self st)), (recognizer (self st));
      cbn [leave leaving fst snd state_after alive]; auto.
    apply leave_Inv, ts_loop_Inv. cbn [hist]. now apply Inv_neutral.
  - now apply leave_Inv, ts_loop_Inv.
  - unfold thrown_at_yield, try_except, raise, on_vosk_error, print, log,
      bind, ret.
    destruct (isinstance_Exception e); apply leave_Inv.
    + apply ts_loop_Inv. cbn [hist]. now apply Inv_neutral.
    + rewrite ts_handlers_ends. apply ts_handlers_Inv. auto.
Qed.

Lemma run_finally_Inv (pending : resumed) (st : St W K) :
  alive (state_after pending) = false ->
  Inv false (hist st) ->
  Inv (alive (state_after (fst (run_finally pending st))))
    (hist (snd (run_finally pending st))).
Proof.
  intros Hp H. unfold run_finally.
  pose proof (cleanup_grows st) as Hg.
  destruct (cleanup st) as [[[]|e] st1]; cbn [fst snd] in *.
  - rewrite Hp. now apply Inv_grown with (h := hist st).
  - now apply Inv_grown with (h := hist st).
Qed.

Lemma run_for_Inv (inner : gen_state) (fuel : nat) (st : St W K) :
  Inv (alive inner) (hist st) ->
  Inv (alive (state_after (fst (run_for cb inner fuel st))))
    (hist (snd (run_for cb inner fuel st))).
Proof.
  intros H. unfold run_for.
  pose proof (ts_resume_preserves inner Next fuel st H) as Hts.
  destruct (ts_resume cb inner Next fuel st) as [[evt| |e| |] st1];
    cbn [fst snd] in *; try exact Hts;
    apply run_finally_Inv; auto.
Qed.

Lemma run_resume_preserves : keeps Inv (run_resume cb).
Proof.
  intros g s fuel st H.
  destruct g, s as [|e]; cbn [run_resume alive] in *;
    try (cbn [leave leaving fst snd state_after alive]; auto; fail).
  - pose proof (run_setup_grows st) as Hg.
    destruct (run_setup st) as [[[]|e] st1]; cbn [fst snd] in *;
      apply leave_Inv.
    + apply run_for_Inv. now apply Inv_grown with (h := hist st).
    + apply run_finally_Inv; [reflexivity|].
      apply Inv_closed. now apply Inv_grown with (h := hist st).
  - now apply leave_Inv, run_for_Inv.
  - apply leave_Inv, run_finally_Inv; auto.
Qed.

Lemma gen_op_Inv gen (g : gen_state) (o : op) (fuel : nat) (st : St W K) :
  keeps Inv gen ->
  Inv (alive g) (hist st) ->
  Inv (alive (snd (fst (gen_op gen g o fuel st))))
    (hist (snd (gen_op gen g o fuel st))).
Proof.
  intros Hgen H. destruct o as [|e|]; cbn [gen_op].
  - pose proof (Hgen g Next fuel st H) as Hn.
    destruct (gen g Next fuel st) as [r st1]; cbn [fst snd] in *.
    destruct g; auto; destruct r; cbn in *; auto.
  - pose proof (Hgen g (Throw e) fuel st H) as Hn.
    destruct (gen g (Throw e) fuel st) as [r st1]; cbn [fst snd] in *.
    destruct g; auto; destruct r; cbn in *; auto.
  - unfold gen_close. destruct g; cbn [fst snd alive] in *; auto.
    pose proof (Hgen GEN_SUSPENDED (Throw GeneratorExit) fuel st H) as Hn.
    destruct (gen GEN_SUSPENDED (Throw GeneratorExit) fuel st) as [r st1].
    destruct r as [evt| |e| |]; cbn [fst snd state_after alive] in *; auto.
    destruct e; cbn [fst snd state_after alive] in *; auto.
Qed.

Lemma consume_Inv gen (ops : list op) (fuel : nat) (g : gen_state)
  (st : St W K) :
  keeps Inv gen ->
  Inv (alive g) (hist st) ->
  Inv false (hist (final_state (consume gen ops fuel g st))).
Proof.
  intros Hgen. revert g st.
  induction ops as [|o ops IH]; intros g st H; cbn [consume].
  - unfold final_state; cbn [snd]. destruct (alive g); auto.
  - pose proof (gen_op_Inv gen g o fuel st Hgen H) as Hop.
    destruct (gen_op gen g o fuel st) as [[r g1] st1]; cbn [fst snd] in *.
    assert (Hrec : Inv false (hist (final_state (consume gen ops fuel g1 st1))))
      by now apply IH.
    assert (Hst : Inv false (hist st1)) by (destruct (alive g1); auto).
    destruct r; try exact Hst;
      destruct (consume gen ops fuel g1 st1) as [[rs g2] st2]; exact Hrec.
Qed.

(** From an empty history, whatever the caller does. *)
Lemma streamed_Inv (ops : list op) (fuel : nat) (g : gen_state)
  (o : LiveTranscriber) (w : W) (k : K) :
  Inv true [] ->
  Inv false
    (hist (final_state (consume (ts_resume cb) ops fuel g (mkSt o w k [])))).
Proof.
  intros H0. apply consume_Inv; [apply ts_resume_preserves|].
  cbn [hist]. destruct (alive g); auto.
Qed.

Lemma ran_Inv (ops : list op) (fuel : nat) (g : gen_state)
  (o : LiveTranscriber) (w : W) (k : K) :
  Inv true [] ->
  Inv false
    (hist (final_state (consume (run_resume cb) ops fuel g (mkSt o w k [])))).
Proof.
  intros H0. apply consume_Inv; [apply run_resume_preserves|].
  cbn [hist]. destruct (alive g); auto.
Qed.

End Invariants.

(* ================================================================== *)
(** ** Events and frames *)

Section Events.

Context {W K : Type} {E : Env W}.

(** Takes a frame apart into the actions it is made of. *)
Ltac invert_frame :=
  repeat match goal with
         | H : frame_log _ _ _ |- _ => inversion H; subst; clear H
         | H : read_log _ _ |- _ => inversion H; subst; clear H
         | H : offer_log _ _ _ _ |- _ => inversion H; subst; clear H
         | H : recognize_log _ _ _ |- _ => inversion H; subst; clear H
         | H : feed_log _ _ _ |- _ => inversion H; subst; clear H
         end.

(** A text extracted from a payload is already stripped. *)
Lemma payload_text_stripped (key payload txt : pystr) :
  payload_text key payload = Ok txt -> strip txt = txt.
Proof.
  unfold payload_text. intros H.
  destruct (json_loads payload) as [[]|]; try discriminate.
  destruct (dict_lookup items key) as [[]|]; try discriminate;
    injection H as <-; [apply strip_idem | reflexivity].
Qed.

Lemma frames_and_texts_neutral (b : bool) (a : action) (h : list action) :
  neutral a = true -> frames_and_texts b h -> frames_and_texts b (a :: h).
Proof. destruct a; try discriminate; intros _ H; exact H. Qed.

Lemma frames_and_texts_frame (has : bool) (r : result step)
  (d h : list action) :
  frame_log has r d -> frames_and_texts true h ->
  frames_and_texts (match r with Ok _ => true | Raise _ => false end) (d ++ h).
Proof.
  intros Hlog [H1 H2]. unfold frames_and_texts.
  invert_frame;
    repeat match goal with c : bool |- _ => destruct c end;
    cbn; auto.
  all: (split; [auto|]; constructor; [|assumption]).
  all: subst evt; unfold nonblank; cbn [text];
    erewrite payload_text_stripped by eassumption;
    intros ->; discriminate.
Qed.


(** C1.  In every run of the streaming generator, consumed directly or
    through [run], whatever the caller does with it: each event is
    yielded for a frame that was fed to the recognizer and for which no
    event had been yielded, and the text of each event is non-empty
    after stripping. *)
Theorem one_event_per_frame_and_nonblank
  (cb : option (callback K)) (ops : list op) (fuel : nat) (g : gen_state)
  (o : LiveTranscriber) (w : W) (k : K) :
  let streamed :=
    hist (final_state (consume (ts_resume cb) ops fuel g (mkSt o w k []))) in
  let ran :=
    hist (final_state (consume (run_resume cb) ops fuel g (mkSt o w k []))) in
  (one_event_per_frame streamed
   /\ Forall (fun evt => strip (text evt) <> []) (yields streamed))
  /\ (one_event_per_frame ran
      /\ Forall (fun evt => strip (text evt) <> []) (yields ran)).
Proof.
  split.
  - apply (streamed_Inv cb frames_and_texts); auto.
    + apply frames_and_texts_neutral.
    + intros r d h; apply frames_and_texts_frame.
    + split; constructor.
  - apply (ran_Inv cb frames_and_texts); auto.
    + apply frames_and_texts_neutral.
    + intros r d h; apply frames_and_texts_frame.
    + split; constructor.
Qed.

Lemma classified_neutral (a : action) (h : list action) :
  neutral a = true ->
  every_event_classified h -> every_event_classified (a :: h).
Proof. destruct a; try discriminate; intros _ H; exact H. Qed.

Lemma classified_frame (has : bool) (r : result step) (d h : list action) :
  frame_log has r d ->
  every_event_classified h -> every_event_classified (d ++ h).
Proof.
  intros Hlog H.
  invert_frame;
    repeat match goal with c : bool |- _ => destruct c end;
    cbn; auto.
Qed.

(** C2.  In every run of the streaming generator, consumed directly or
    through [run]: an event is yielded right after the result was
    fetched for the frame just fed; if [AcceptWaveform] reported a
    completed utterance the event is [final] and its text and raw result
    come from [Result()], otherwise it is [partial] and they come from
    [PartialResult()]. *)
Theorem events_classified_by_accept
  (cb : option (callback K)) (ops : list op) (fuel : nat) (g : gen_state)
  (o : LiveTranscriber) (w : W) (k : K) :
  every_event_classified
    (hist (final_state (consume (ts_resume cb) ops fuel g (mkSt o w k []))))
  /\ every_event_classified
       (hist (final_state
                (consume (run_resume cb) ops fuel g (mkSt o w k [])))).
Proof.
  split.
  - apply (streamed_Inv cb (fun _ => every_event_classified)); auto.
    + intros _; apply classified_neutral.
    + intros r d h; apply classified_frame.
    + exact I.
  - apply (ran_Inv cb (fun _ => every_event_classified)); auto.
    + intros _; apply classified_neutral.
    + intros r d h; apply classified_frame.
    + exact I.
Qed.

Lemma sink_served_closed (h : list action) :
  sink_served true h -> sink_served false h.
Proof. intros H; exact H. Qed.

Lemma sink_served_neutral (b : bool) (a : action) (h : list action) :
  neutral a = true -> sink_served b h -> sink_served b (a :: h).
Proof. destruct a; try discriminate; intros _ H; exact H. Qed.

Lemma sink_served_frame (r : result step) (d h : list action) :
  frame_log true r d -> sink_served true h ->
  sink_served (match r with Ok _ => true | Raise _ => false end) (d ++ h).
Proof.
  intros Hlog (H1 & H2). unfold sink_served.
  invert_frame;
    repeat match goal with c : bool |- _ => destruct c end;
    cbn; repeat split; auto; try discriminate; try congruence.
Qed.

(** C6, as the code has it.  With a callback whose truth value is
    true, in every run of the streaming generator, consumed directly or
    through [run]: the frames the callback was called with are the
    frames captured, each once and in the order of capture, and at every
    call of [AcceptWaveform] the latest call of the callback, made since
    the previous frame was fed, was for that very frame and had returned
    or raised. *)
Theorem callback_called_before_recognizer
  (f : callback K) (ops : list op) (fuel : nat) (g : gen_state)
  (o : LiveTranscriber) (w : W) (k : K) :
  (forall k', cb_bool f k' = true) ->
  let streamed :=
    hist (final_state
            (consume (ts_resume (Some f)) ops fuel g (mkSt o w k []))) in
  let ran :=
    hist (final_state
            (consume (run_resume (Some f)) ops fuel g (mkSt o w k []))) in
  (sunk streamed = captured streamed /\ sink_before_feed streamed)
  /\ (sunk ran = captured ran /\ sink_before_feed ran).
Proof.
  intros Htrue.
  assert (H0 : sink_served true []) by (repeat split).
  assert (Hframe : forall k0 r d h,
             frame_log (has_callback (Some f) k0) r d ->
             sink_served true h ->
             sink_served (match r with Ok _ => true | Raise _ => false end)
               (d ++ h)).
  { intros k0 r d h. cbn [has_callback]. rewrite Htrue.
    apply sink_served_frame. }
  split.
  - destruct (streamed_Inv (Some f) sink_served sink_served_closed
                sink_served_neutral Hframe ops fuel g o w k H0)
      as (H1 & H2).
    now split.
  - destruct (ran_Inv (Some f) sink_served sink_served_closed
                sink_served_neutral Hframe ops fuel g o w k H0)
      as (H1 & H2).
    now split.
Qed.

End Events.

(* ================================================================== *)
(** ** Failures inside a frame *)

Section Recovery.

Context {W K : Type} {E : Env W}.

Lemma extends_refl (h : list action) : extends h h.
Proof. now exists []. Qed.

Lemma extends_trans (h1 h2 h3 : list action) :
  extends h1 h2 -> extends h2 h3 -> extends h1 h3.
Proof.
  intros [d1 ->] [d2 ->]. exists (d2 ++ d1). now rewrite app_assoc.
Qed.

Lemma extends_cons (a : action) (h h' : list action) :
  extends h h' -> extends h (a :: h').
Proof. intros [d ->]. now exists (a :: d). Qed.

Lemma loop_body_extends (cb : option (callback K)) (st : St W K) :
  extends (hist st) (hist (snd (loop_body cb st))).
Proof. destruct (loop_body_sound cb st) as (d & _ & Hd). now exists d. Qed.

Lemma ts_handlers_extends (e : exn) (st : St W K) :
  extends (hist st) (hist (snd (ts_handlers e st))).
Proof.
  unfold ts_handlers, print, log.
  destruct (isinstance_KeyboardInterrupt e);
    [apply extends_cons, extends_refl|].
  destruct (isinstance_Exception e);
    [apply extends_cons, extends_refl | apply extends_refl].
Qed.

Lemma ts_loop_extends (fuel : nat) (cb : option (callback K)) (st : St W K) :
  extends (hist st) (hist (snd (ts_loop fuel cb st))).
Proof.
  revert st. induction fuel as [|fuel IH]; intros st; cbn [ts_loop].
  - apply extends_refl.
  - pose proof (loop_body_extends cb st) as Hb.
    destruct (loop_body cb st) as [[[|evt]|e] st1]; cbn [fst snd] in *.
    + exact (extends_trans _ _ _ Hb (IH st1)).
    + exact Hb.
    + exact (extends_trans _ _ _ Hb (ts_handlers_extends e st1)).
Qed.

(** The loop body never assigns an attribute of [self]. *)
Lemma read_frame_self (st : St W K) : self (snd (read_frame st)) = self st.
Proof.
  unfold read_frame, attr_of, bind, get, cfg, call, ret, raise.
  step_through; reflexivity.
Qed.

Lemma offer_self (cb : option (callback K)) (data : bytes) (st : St W K) :
  self (snd (offer cb data st)) = self st.
Proof.
  unfold offer, try_except, call_callback, print, log, ret.
  step_through; reflexivity.
Qed.

Lemma feed_self (data : bytes) (st : St W K) :
  self (snd (feed data st)) = self st.
Proof.
  unfold feed, yield_, py_get, py_strip, attr_of, loads, now, call, get, log,
    bind, ret, raise.
  step_through; reflexivity.
Qed.

(** A pass through the loop body begins by reading a frame, when the
    stream is there and the frame size is known. *)
Lemma loop_body_reads (cb : option (callback K)) (st : St W K)
  (sh : handle) (n : Z) :
  stream (self st) = Some sh ->
  frame_per_buffer (config (self st)) = Ok n ->
  extends (A_read n (fst (stream_read sh n (world st))) :: hist st)
    (hist (snd (loop_body cb st))).
Proof.
  intros Hs Hn. unfold loop_body.
  assert (Hr : read_frame st
               = (fst (stream_read sh n (world st)),
                  mkSt (self st) (snd (stream_read sh n (world st))) (sink st)
                    (A_read n (fst (stream_read sh n (world st)))
                     :: hist st))).
  { unfold read_frame, attr_of, bind, get, cfg, call, ret.
    rewrite Hs, Hn. now destruct (stream_read sh n (world st)). }
  unfold bind at 1. rewrite Hr.
  destruct (fst (stream_read sh n (world st))) as [data|e];
    [|apply extends_refl].
  unfold bind.
  destruct (offer_sound cb data
              (mkSt (self st) (snd (stream_read sh n (world st))) (sink st)
                 (A_read n (Ok data) :: hist st))) as (ds & _ & Hds).
  destruct (offer cb data _) as [[[]|e] st1]; cbn [fst snd hist] in *.
  - destruct (recognize_sound data st1) as (df & _ & Hdf).
    rewrite Hdf, Hds. exists (df ++ ds). now rewrite app_assoc.
  - rewrite Hds. now exists ds.
Qed.


End Recovery.

(* ================================================================== *)
(** ** The callback cannot disturb the transcription *)

Section Isolation.

Context {W K : Type} {E : Env W}.

Lemma blind_ret {A} (a : A) : blind (W := W) (K := K) (ret a).
Proof. intros st1 st2 H. now split. Qed.

Lemma blind_raise {A} (e : exn) : blind (W := W) (K := K) (raise (A := A) e).
Proof. intros st1 st2 H. now split. Qed.

Lemma blind_bind {A B} (m : M (W := W) (K := K) A) (f : A -> M B) :
  blind m -> (forall a, blind (f a)) -> blind (bind m f).
Proof.
  intros Hm Hf st1 st2 H. unfold bind.
  destruct (Hm st1 st2 H) as [Hr Hs].
  destruct (m st1) as [[a|e] st1'], (m st2) as [[a'|e'] st2'];
    cbn [fst snd] in *; try discriminate.
  - injection Hr as <-. now apply Hf.
  - injection Hr as <-. now split.
Qed.

Lemma blind_try_except {A} (m : M (W := W) (K := K) A) (catches : exn -> bool)
  (h : exn -> M A) :
  blind m -> (forall e, blind (h e)) -> blind (try_except m catches h).
Proof.
  intros Hm Hh st1 st2 H. unfold try_except.
  destruct (Hm st1 st2 H) as [Hr Hs].
  destruct (m st1) as [[a|e] st1'], (m st2) as [[a'|e'] st2'];
    cbn [fst snd] in *; try discriminate.
  - now split.
  - injection Hr as <-. destruct (catches e); [now apply Hh | now split].
Qed.

Lemma blind_log (a : action) : blind (W := W) (K := K) (log a).
Proof. intros st1 st2 [H1 H2]. now repeat split. Qed.

Lemma blind_call {A} (f : W -> result A * W) (record : result A -> action) :
  blind (W := W) (K := K) (call f record).
Proof.
  intros st1 st2 [H1 H2]. unfold call. rewrite H2.
  destruct (f (world st2)). now repeat split.
Qed.

Lemma blind_now : blind (W := W) (K := K) now.
Proof.
  intros st1 st2 [H1 H2]. unfold now. rewrite H2.
  destruct (now_isoformat (world st2)). now repeat split.
Qed.

Lemma blind_cfg {A} (prop : Config -> result A) :
  blind (W := W) (K := K) (cfg prop).
Proof. intros st1 st2 [H1 H2]. unfold cfg. rewrite H1. now repeat split. Qed.

Lemma blind_get {A} (field : LiveTranscriber -> A) :
  blind (W := W) (K := K) (get field).
Proof. intros st1 st2 [H1 H2]. unfold get. rewrite H1. now repeat split. Qed.

Lemma blind_update (f : LiveTranscriber -> LiveTranscriber) :
  blind (W := W) (K := K) (update f).
Proof.
  intros st1 st2 [H1 H2]. unfold update, same_session. cbn. now rewrite H1.
Qed.

Lemma blind_hasattr {A} (prop : Config -> option (result A)) :
  blind (W := W) (K := K) (hasattr prop).
Proof.
  intros st1 st2 [H1 H2]. unfold hasattr. rewrite H1.
  destruct (prop (config (self st2))) as [[a|e]|]; [now repeat split| |
    now repeat split].
  destruct (isinstance_AttributeError e); now repeat split.
Qed.

Lemma blind_getattr {A} (prop : Config -> option (result A)) (name : string) :
  blind (W := W) (K := K) (getattr prop name).
Proof.
  intros st1 st2 [H1 H2]. unfold getattr. rewrite H1.
  destruct (prop (config (self st2))); now repeat split.
Qed.

Lemma blind_getattr_default {A} (prop : Config -> option (result A))
  (default : A) :
  blind (W := W) (K := K) (getattr_default prop default).
Proof.
  intros st1 st2 [H1 H2]. unfold getattr_default. rewrite H1.
  destruct (prop (config (self st2))) as [[a|e]|]; [now repeat split| |
    now repeat split].
  destruct (isinstance_AttributeError e); now repeat split.
Qed.

Lemma blind_loads (payload : pystr) : blind (W := W) (K := K) (loads payload).
Proof. intros st1 st2 H. now split. Qed.

(** Goes through a method body made of blind parts. *)
Ltac blindly :=
  cbv zeta;
  repeat first
    [ apply blind_bind; [|intros ?]
    | apply blind_try_except; [|intros ?]
    | apply blind_ret
    | apply blind_raise
    | apply blind_log
    | apply blind_call
    | apply blind_now
    | apply blind_cfg
    | apply blind_get
    | apply blind_update
    | apply blind_hasattr
    | apply blind_getattr
    | apply blind_getattr_default
    | apply blind_loads
    | match goal with
      | |- blind (match ?x with _ => _ end) => destruct x
      end ].

Lemma blind_load_model : blind (W := W) (K := K) load_model.
Proof. unfold load_model, set_model, print. blindly. Qed.

Lemma blind_setup_audio_stream : blind (W := W) (K := K) setup_audio_stream.
Proof. unfold setup_audio_stream, set_p, set_stream, print. blindly. Qed.

Lemma blind_start_recognition : blind (W := W) (K := K) start_recognition.
Proof.
  unfold start_recognition, set_recognizer, try_pass, print. blindly.
Qed.

Lemma blind_run_setup : blind (W := W) (K := K) run_setup.
Proof.
  unfold run_setup.
  apply blind_bind; [apply blind_load_model | intros _].
  apply blind_bind; [apply blind_setup_audio_stream | intros _].
  apply blind_start_recognition.
Qed.

Lemma blind_cleanup : blind (W := W) (K := K) cleanup.
Proof. unfold cleanup, set_stream, set_p, try_pass, print. blindly. Qed.

Lemma blind_read_frame : blind (W := W) (K := K) read_frame.
Proof. unfold read_frame, attr_of. blindly. Qed.

Lemma blind_recognize (data : bytes) :
  blind (W := W) (K := K) (recognize data).
Proof.
  unfold recognize, feed, on_vosk_error, yield_, py_get, py_strip, attr_of,
    print.
  blindly.
Qed.

Lemma blind_ts_enter : blind (W := W) (K := K) ts_enter.
Proof. unfold ts_enter, print. blindly. Qed.

Lemma blind_thrown_at_yield (e : exn) :
  blind (W := W) (K := K) (thrown_at_yield e).
Proof. unfold thrown_at_yield, on_vosk_error, print. blindly. Qed.

Lemma same_session_refl (st : St W K) : same_session st st.
Proof. now split. Qed.

Lemma ts_handlers_alike (e : exn) (st1 st2 : St W K) :
  same_session st1 st2 ->
  fst (ts_handlers e st1) = fst (ts_handlers e st2)
  /\ same_session (snd (ts_handlers e st1)) (snd (ts_handlers e st2)).
Proof.
  intros [H1 H2]. unfold ts_handlers, print, log.
  destruct (isinstance_KeyboardInterrupt e); [now repeat split|].
  destruct (isinstance_Exception e); now repeat split.
Qed.

Lemma run_finally_alike (pending : resumed) (st1 st2 : St W K) :
  same_session st1 st2 ->
  fst (run_finally pending st1) = fst (run_finally pending st2)
  /\ same_session (snd (run_finally pending st1))
       (snd (run_finally pending st2)).
Proof.
  intros H. unfold run_finally.
  destruct (blind_cleanup st1 st2 H) as [Hr Hs].
  destruct (cleanup st1) as [[[]|e] st1'], (cleanup st2) as [[[]|e'] st2'];
    cbn [fst snd] in *; try discriminate.
  - now split.
  - injection Hr as <-. now split.
Qed.

Lemma leave_alike (x y : resumed * St W K) :
  fst x = fst y /\ same_session (snd x) (snd y) ->
  fst (leave x) = fst (leave y)
  /\ same_session (snd (leave x)) (snd (leave y)).
Proof. intros [Hr Hs]. unfold leave. cbn [fst snd]. now rewrite Hr. Qed.

(** The operations of two alike generators give the same. *)
Lemma gen_op_alike
  (gen1 gen2 : gen_state -> send -> nat -> St W K -> resumed * St W K)
  (g : gen_state) (o : op) (fuel : nat) (st1 st2 : St W K) :
  alike gen1 gen2 ->
  same_session st1 st2 ->
  fst (gen_op gen1 g o fuel st1) = fst (gen_op gen2 g o fuel st2)
  /\ same_session (snd (gen_op gen1 g o fuel st1))
       (snd (gen_op gen2 g o fuel st2)).
Proof.
  intros Hgen H. destruct o as [|e|]; cbn [gen_op].
  - destruct (Hgen g Next fuel st1 st2 H) as [Hr Hs].
    destruct (gen1 g Next fuel st1), (gen2 g Next fuel st2).
    cbn [fst snd] in *. now subst.
  - destruct (Hgen g (Throw e) fuel st1 st2 H) as [Hr Hs].
    destruct (gen1 g (Throw e) fuel st1), (gen2 g (Throw e) fuel st2).
    cbn [fst snd] in *. now subst.
  - unfold gen_close. destruct g; cbn [fst snd]; try now split.
    destruct (Hgen GEN_SUSPENDED (Throw GeneratorExit) fuel st1 st2 H)
      as [Hr Hs].
    destruct (gen1 GEN_SUSPENDED (Throw GeneratorExit) fuel st1) as [r1 s1],
      (gen2 GEN_SUSPENDED (Throw GeneratorExit) fuel st2) as [r2 s2].
    cbn [fst snd] in *. subst r2.
    destruct r1 as [evt| |e| |]; cbn [fst snd]; try now split.
    destruct e; cbn [fst snd]; now split.
Qed.

Lemma consume_alike
  (gen1 gen2 : gen_state -> send -> nat -> St W K -> resumed * St W K)
  (ops : list op) (fuel : nat) (g : gen_state) (st1 st2 : St W K) :
  alike gen1 gen2 ->
  same_session st1 st2 ->
  surfaced (consume gen1 ops fuel g st1)
  = surfaced (consume gen2 ops fuel g st2)
  /\ same_session (final_state (consume gen1 ops fuel g st1))
       (final_state (consume gen2 ops fuel g st2)).
Proof.
  intros Hgen. revert g st1 st2.
  induction ops as [|o ops IH]; intros g st1 st2 H; cbn [consume].
  - now split.
  - destruct (gen_op_alike gen1 gen2 g o fuel st1 st2 Hgen H) as [Hr Hs].
    destruct (gen_op gen1 g o fuel st1) as [[r1 g1] s1],
      (gen_op gen2 g o fuel st2) as [[r2 g2] s2].
    cbn [fst snd] in *. injection Hr as <- <-.
    specialize (IH g1 s1 s2 Hs).
    unfold surfaced, final_state in *.
    destruct (consume gen1 ops fuel g1 s1) as [[rs1 g1'] s1'],
      (consume gen2 ops fuel g1 s2) as [[rs2 g2'] s2'].
    cbn [fst snd] in *. destruct IH as [-> IHs].
    destruct r1; cbn [fst snd]; now split.
Qed.

Section WithCallback.

Variable f : callback K.
Hypothesis f_errors : callback_errors_are_Exceptions f.

(** Lines 167-172 with a callback and without. *)
Lemma offer_isolated (data : bytes) (st1 st2 : St W K) :
  same_session st1 st2 ->
  fst (offer (Some f) data st1) = Ok tt
  /\ fst (offer None data st2) = Ok tt
  /\ same_session (snd (offer (Some f) data st1))
       (snd (offer None data st2)).
Proof.
  intros [H1 H2].
  unfold offer, try_except, call_callback, print, log, ret.
  destruct (cb_bool f (sink st1)); [|now repeat split].
  pose proof (f_errors data (sink st1)) as He.
  destruct (cb_call f data (sink st1)) as [[[]|e] k]; cbn [fst snd] in *.
  - now repeat split.
  - rewrite (He e eq_refl). now repeat split.
Qed.

Lemma loop_body_isolated (st1 st2 : St W K) :
  same_session st1 st2 ->
  fst (loop_body (Some f) st1) = fst (loop_body None st2)
  /\ same_session (snd (loop_body (Some f) st1)) (snd (loop_body None st2)).
Proof.
  intros H. unfold loop_body, bind.
  destruct (blind_read_frame st1 st2 H) as [Hr Hs].
  destruct (read_frame st1) as [[data|e] s1],
    (read_frame st2) as [[data'|e'] s2];
    cbn [fst snd] in *; try discriminate.
  - injection Hr as <-.
    destruct (offer_isolated data s1 s2 Hs) as (Ho1 & Ho2 & Hos).
    destruct (offer (Some f) data s1) as [[[]|] s1'],
      (offer None data s2) as [[[]|] s2'];
      cbn [fst snd] in *; try discriminate.
    now apply blind_recognize.
  - injection Hr as <-. now split.
Qed.

Lemma ts_loop_isolated (fuel : nat) (st1 st2 : St W K) :
  same_session st1 st2 ->
  fst (ts_loop fuel (Some f) st1) = fst (ts_loop fuel None st2)
  /\ same_session (snd (ts_loop fuel (Some f) st1))
       (snd (ts_loop fuel None st2)).
Proof.
  revert st1 st2. induction fuel as [|fuel IH]; intros st1 st2 H;
    cbn [ts_loop]; [now split|].
  destruct (loop_body_isolated st1 st2 H) as [Hr Hs].
  destruct (loop_body (Some f) st1) as [[[|evt]|e] s1],
    (loop_body None st2) as [[[|evt']|e'] s2];
    cbn [fst snd] in *; try discriminate.
  - now apply IH.
  - injection Hr as <-. now split.
  - injection Hr as <-. now apply ts_handlers_alike.
Qed.

Lemma ts_resume_isolated : alike (ts_resume (Some f)) (ts_resume None).
Proof.
  intros g s fuel st1 st2 H.
  destruct g, s as [|e]; cbn [ts_resume]; try (now split);
    try (apply leave_alike; now split).
  - destruct (blind_ts_enter st1 st2 H) as [Hr Hs].
    destruct (ts_enter st1) as [[[]|e] s1], (ts_enter st2) as [[[]|e'] s2];
      cbn [fst snd] in *; try discriminate; apply leave_alike.
    + now apply ts_loop_isolated.
    + injection Hr as <-. now split.
  - now apply leave_alike, ts_loop_isolated.
  - destruct (blind_thrown_at_yield e st1 st2 H) as [Hr Hs].
    destruct (thrown_at_yield e st1) as [[x|e1] s1],
      (thrown_at_yield e st2) as [[x'|e2] s2];
      cbn [fst snd] in *; try discriminate; apply leave_alike.
    + now apply ts_loop_isolated.
    + injection Hr as <-. now apply ts_handlers_alike.
Qed.

Lemma run_for_isolated (inner : gen_state) (fuel : nat) (st1 st2 : St W K) :
  same_session st1 st2 ->
  fst (run_for (Some f) inner fuel st1) = fst (run_for None inner fuel st2)
  /\ same_session (snd (run_for (Some f) inner fuel st1))
       (snd (run_for None inner fuel st2)).
Proof.
  intros H. unfold run_for.
  destruct (ts_resume_isolated inner Next fuel st1 st2 H) as [Hr Hs].
  destruct (ts_resume (Some f) inner Next fuel st1) as [r1 s1],
    (ts_resume None inner Next fuel st2) as [r2 s2].
  cbn [fst snd] in *. subst r2.
  destruct r1; try (now split); now apply run_finally_alike.
Qed.

Lemma run_resume_isolated : alike (run_resume (Some f)) (run_resume None).
Proof.
  intros g s fuel st1 st2 H.
  destruct g, s as [|e]; cbn [run_resume]; try (now split);
    try (apply leave_alike; now split).
  - destruct (blind_run_setup st1 st2 H) as [Hr Hs].
    destruct (run_setup st1) as [[[]|e] s1], (run_setup st2) as [[[]|e'] s2];
      cbn [fst snd] in *; try discriminate; apply leave_alike.
    + now apply run_for_isolated.
    + injection Hr as <-. now apply run_finally_alike.
  - now apply leave_alike, run_for_isolated.
  - now apply leave_alike, run_finally_alike.
Qed.

End WithCallback.


End Isolation.

(* ================================================================== *)
(** ** Teardown *)

Section Teardown.

Context {W K : Type} {E : Env W}.

(** A release call that let a non-[Exception] through contradicts the
    assumption on the collaborators. *)
Ltac release_contradiction Hrel :=
  destruct Hrel as (Hstop & Hclose & Hterm);
  repeat match goal with
         | H : stream_stop_stream ?h ?w = (Raise ?e, _) |- _ =>
             let X := fresh in
             pose proof (Hstop h w e) as X; rewrite H in X;
             specialize (X eq_refl); clear H
         | H : stream_close ?h ?w = (Raise ?e, _) |- _ =>
             let X := fresh in
             pose proof (Hclose h w e) as X; rewrite H in X;
             specialize (X eq_refl); clear H
         | H : pa_terminate ?h ?w = (Raise ?e, _) |- _ =>
             let X := fresh in
             pose proof (Hterm h w e) as X; rewrite H in X;
             specialize (X eq_refl); clear H
         end;
  congruence.

Ltac unfold_cleanup :=
  unfold cleanup, try_pass, try_except, set_stream, set_p, update, print,
    call, get, log, bind, ret, raise.

(** When [cleanup] returns, both audio attributes are [None]; the model
    and the recognizer are never assigned. *)
Lemma cleanup_returned (st : St W K) :
  fst (cleanup st) = Ok tt ->
  stream (self (snd (cleanup st))) = None
  /\ p (self (snd (cleanup st))) = None.
Proof.
  unfold_cleanup. step_through; intros; try discriminate; try congruence;
    now split.
Qed.

Lemma cleanup_keeps_recognizer (st : St W K) :
  model (self (snd (cleanup st))) = model (self st)
  /\ recognizer (self (snd (cleanup st))) = recognizer (self st)
  /\ config (self (snd (cleanup st))) = config (self st).
Proof. unfold_cleanup. step_through; now repeat split. Qed.

Lemma cleanup_returns (st : St W K) :
  release_errors_are_Exceptions E -> fst (cleanup st) = Ok tt.
Proof.
  intros Hrel. unfold_cleanup.
  step_through; try reflexivity; try (destruct a; reflexivity);
    release_contradiction Hrel.
Qed.

(** With nothing to release, [cleanup] only prints. *)
Lemma cleanup_idle (st : St W K) :
  stream (self st) = None -> p (self st) = None ->
  cleanup st
  = (Ok tt,
     mkSt (self st) (world st) (sink st)
       (A_print "[LiveTranscriber] Audio resources cleaned up" :: hist st)).
Proof. intros Hs Hp. unfold_cleanup. now rewrite Hs, Hp. Qed.

(** C10.  When the release calls fail with nothing but [Exception]s,
    be it all three of them, [cleanup] returns normally in every state,
    and the stream and the audio system attributes are [None]
    afterwards. *)
Theorem cleanup_never_raises (st : St W K) :
  release_errors_are_Exceptions E ->
  fst (cleanup st) = Ok tt
  /\ stream (self (snd (cleanup st))) = None
  /\ p (self (snd (cleanup st))) = None.
Proof.
  intros Hrel. pose proof (cleanup_returns st Hrel) as Hok.
  split; [exact Hok | now apply cleanup_returned].
Qed.

Lemma cleanups_released (n : nat) (st : St W K) :
  release_errors_are_Exceptions E ->
  stream (self (cleanups (S n) st)) = None
  /\ p (self (cleanups (S n) st)) = None.
Proof.
  intros Hrel. cbn [cleanups]. apply cleanup_returned.
  now apply cleanup_returns.
Qed.

(** C7, as the code has it.  When the release calls fail with nothing
    but [Exception]s, [cleanup] may be called any number of times and in
    any state, partly initialised or not: no call raises; after the
    first call the stream and the audio system attributes are [None],
    and every further call only prints, leaving the object and the
    collaborators as they are.  The model and the recognizer are kept
    throughout. *)
Theorem cleanup_is_idempotent (n : nat) (st : St W K) :
  release_errors_are_Exceptions E ->
  let once := cleanups 1 st in
  let again := cleanups (S n) st in
  fst (cleanup (cleanups n st)) = Ok tt
  /\ (stream (self again) = None /\ p (self again) = None)
  /\ (self again = self once /\ world again = world once
      /\ hist again
         = repeat (A_print "[LiveTranscriber] Audio resources cleaned up") n
           ++ hist once)
  /\ (model (self again) = model (self st)
      /\ recognizer (self again) = recognizer (self st)).
Proof.
  intros Hrel once again.
  split; [now apply cleanup_returns|].
  split; [now apply cleanups_released|].
  subst once again. induction n as [|n IH].
  - split; [now repeat split|].
    destruct (cleanup_keeps_recognizer st) as (Hm & Hr & _). now split.
  - destruct IH as ((Hself & Hworld & Hhist) & Hm & Hr).
    destruct (cleanups_released n st Hrel) as [Hs Hp].
    change (cleanups (S (S n)) st) with (snd (cleanup (cleanups (S n) st))).
    rewrite (cleanup_idle _ Hs Hp). cbn [snd self world hist].
    repeat split; try assumption.
    rewrite Hhist. reflexivity.
Qed.

(** C8, as the code has it.  With a stream and an audio system, and
    release calls that fail with nothing but [Exception]s, [cleanup]
    stops the stream, closes it and terminates the audio system, in this
    order and each once, and sets both attributes to [None]; it releases
    neither the recognizer nor the model, which the object keeps. *)
Theorem cleanup_releases_audio_in_order (st : St W K) (sh ph : handle) :
  release_errors_are_Exceptions E ->
  stream (self st) = Some sh ->
  p (self st) = Some ph ->
  let stopped := stream_stop_stream sh (world st) in
  let closed := stream_close sh (snd stopped) in
  let terminated := pa_terminate ph (snd closed) in
  let st' := snd (cleanup st) in
  hist st'
  = A_print "[LiveTranscriber] Audio resources cleaned up"
    :: A_terminate (fst terminated) :: A_close (fst closed)
    :: A_stop_stream (fst stopped) :: hist st
  /\ world st' = snd terminated
  /\ (stream (self st') = None /\ p (self st') = None)
  /\ (recognizer (self st') = recognizer (self st)
      /\ model (self st') = model (self st)).
Proof.
  intros Hrel Hs Hp stopped closed terminated st'.
  subst stopped closed terminated st'.
  unfold_cleanup.
  step_through; cbn [p stream model recognizer config] in *;
    try congruence; try release_contradiction Hrel.
  all: repeat match goal with
              | H : Some _ = Some _ |- _ => injection H as H; subst
              | H : p (self _) = Some _, H' : p (self _) = Some _ |- _ =>
                  rewrite H' in H
              end.
  all: repeat match goal with
              | H : ?f = (_, _) |- context [?f] => rewrite H; cbn [fst snd]
              end.
  all: now repeat split.
Qed.

(** C9, as the code has it.  The check of the state is made by
    [start_recognition]: called before a model is loaded it raises
    [RuntimeError] and changes nothing, so that it opens nothing.
    [setup_audio_stream] makes no such check: what it does is the same
    whether a model is loaded or not. *)
Theorem start_recognition_needs_model (st : St W K) :
  model (self st) = None ->
  start_recognition st
  = (Raise (RuntimeError "Model not loaded. Call load_model() first."), st)
  /\ forall m,
       fst (setup_audio_stream (with_model m st))
       = fst (setup_audio_stream st)
       /\ snd (setup_audio_stream (with_model m st))
          = with_model m (snd (setup_audio_stream st)).
Proof.
  intros Hm. split.
  - unfold start_recognition, bind, get, raise. cbv beta iota.
    rewrite Hm. reflexivity.
  - intros m.
    unfold setup_audio_stream, hasattr, getattr, set_p, set_stream, update,
      print, call, cfg, log, bind, ret, raise, with_model.
    step_through; now split.
Qed.

(** [cleanup] never goes unnoticed: it prints, or it has made a call. *)
Lemma cleanup_acts (st : St W K) : hist (snd (cleanup st)) <> [].
Proof. unfold_cleanup. step_through; discriminate. Qed.

Lemma run_finally_state (pending : resumed) (st : St W K) :
  snd (run_finally pending st) = snd (cleanup st).
Proof. unfold run_finally. now destruct (cleanup st) as [[[]|e] st1]. Qed.

Lemma run_finally_pending (pending : resumed) (st : St W K) :
  fst (cleanup st) = Ok tt -> fst (run_finally pending st) = pending.
Proof.
  unfold run_finally. destruct (cleanup st) as [[[]|e] st1]; cbn [fst];
    [reflexivity | discriminate].
Qed.

(** The [for] statement of [run] ends through the [finally] clause. *)
Lemma run_for_ends (cb : option (callback K)) (inner : gen_state)
  (fuel : nat) (st : St W K) :
  state_after (fst (run_for cb inner fuel st)) = GEN_CLOSED ->
  let tried := ts_resume cb inner Next fuel st in
  run_for cb inner fuel st = run_finally (fst tried) (snd tried).
Proof.
  unfold run_for. cbv zeta.
  destruct (ts_resume cb inner Next fuel st) as [[evt| |e| |] st1];
    cbn [fst snd state_after]; intros H; try discriminate; reflexivity.
Qed.

Lemma leaving_idem (r : resumed) : leaving (leaving r) = leaving r.
Proof. destruct r as [evt| |[]| |]; reflexivity. Qed.

(** C3, as the code has it.  Whenever an operation of the caller on the
    generator [run], whose body has been entered or is entered by this
    operation, leaves the generator closed (it is exhausted, an
    exception comes out of any phase, or [close] returns): [cleanup] was
    called in the very state in which the [try] block was left, and the
    caller finds the state this call of [cleanup] left, nothing being
    done after it.  When [cleanup] returned, the caller is given the
    ending that was pending, and the audio attributes are [None]. *)
Theorem run_cleans_up_before_it_ends
  (cb : option (callback K)) (g g' : gen_state) (o : op) (fuel : nat)
  (st st' : St W K) (r : resumed) :
  gen_op (run_resume cb) g o fuel st = (r, g', st') ->
  started g o = true ->
  g' = GEN_CLOSED ->
  exists pending st0,
    run_try cb g (sent o) fuel st = Some (pending, st0)
    /\ st' = snd (cleanup st0)
    /\ (fst (cleanup st0) = Ok tt ->
        r = match o with
            | op_close => Returned
            | _ => leaving pending
            end
        /\ stream (self st') = None /\ p (self st') = None).
Proof.
  intros Hop Hstarted Hclosed. subst g'.
  assert (Hfin : forall pending (st0 : St W K) r1 (st1 : St W K),
             leave (run_finally pending st0) = (r1, st1) ->
             st1 = snd (cleanup st0)
             /\ (fst (cleanup st0) = Ok tt ->
                 r1 = leaving pending
                 /\ stream (self st1) = None /\ p (self st1) = None)).
  { intros pending st0 r1 st1 H. unfold leave in H.
    injection H as <- <-. rewrite run_finally_state.
    split; [reflexivity|]. intros Hok.
    rewrite (run_finally_pending pending st0 Hok).
    split; [reflexivity | now apply cleanup_returned]. }
  assert (Hfor : forall inner (st0 : St W K) r1 (st1 : St W K),
             leave (run_for cb inner fuel st0) = (r1, st1) ->
             state_after r1 = GEN_CLOSED ->
             let tried := ts_resume cb inner Next fuel st0 in
             st1 = snd (cleanup (snd tried))
             /\ (fst (cleanup (snd tried)) = Ok tt ->
                 r1 = leaving (fst tried)
                 /\ stream (self st1) = None /\ p (self st1) = None)).
  { intros inner st0 r1 st1 H Hr tried. subst tried.
    rewrite run_for_ends in H.
    - now apply Hfin.
    - unfold leave in H. injection H as <- _.
      now rewrite leaving_state in Hr. }
  destruct o as [|e|]; destruct g; try discriminate;
    cbn [gen_op gen_close run_resume run_try sent] in *.
  - (* the first [next] *)
    destruct (run_setup st) as [[[]|e] st1].
    + destruct (leave (run_for cb GEN_CREATED fuel st1)) as [r1 st2] eqn:Hrun.
      injection Hop as <- Hg <-.
      destruct (Hfor _ _ _ _ Hrun Hg) as [Hst Hok].
      destruct (ts_resume cb GEN_CREATED Next fuel st1) as [pending st0].
      exists pending, st0. cbn [fst snd] in *. now split.
    + destruct (leave (run_finally (Raised e) st1)) as [r1 st2] eqn:Hrun.
      injection Hop as <- _ <-.
      destruct (Hfin _ _ _ _ Hrun) as [Hst Hok].
      exists (Raised e), st1. now split.
  - (* [next] at the [yield] *)
    destruct (leave (run_for cb GEN_SUSPENDED fuel st)) as [r1 st2] eqn:Hrun.
    injection Hop as <- Hg <-.
    destruct (Hfor _ _ _ _ Hrun Hg) as [Hst Hok].
    destruct (ts_resume cb GEN_SUSPENDED Next fuel st) as [pending st0].
    exists pending, st0. cbn [fst snd] in *. now split.
  - (* [throw] at the [yield] *)
    destruct (leave (run_finally (Raised e) st)) as [r1 st2] eqn:Hrun.
    injection Hop as <- _ <-.
    destruct (Hfin _ _ _ _ Hrun) as [Hst Hok].
    exists (Raised e), st. now split.
  - (* [close] at the [yield] *)
    destruct (leave (run_finally (Raised GeneratorExit) st)) as [r1 st2]
      eqn:Hrun.
    destruct (Hfin _ _ _ _ Hrun) as [Hst Hok].
    exists (Raised GeneratorExit), st.
    assert (Hst' : st' = st2)
      by (destruct r1 as [evt| |[]| |]; cbn in Hop; congruence).
    subst st'. split; [reflexivity|]. split; [exact Hst|].
    intros Hc. destruct (Hok Hc) as (Hr & Hs & Hp).
    subst r1. cbn [leaving pep479] in Hop. injection Hop as <-.
    now repeat split.
Qed.

End Teardown.

(* ================================================================== *)
(** ** The scenario of the specification *)

(** Ten frames give eight partial events "hel" and, on the fifth and the
    tenth frame, a final event "hello world". *)
Example ten_frames :
  Bench.transcript
    (surfaced (consume (run_resume (E := Bench.env Bench.healthy) None)
                 (repeat op_next 10) 1 GEN_CREATED Bench.fresh))
  = let part := (partial, lit "hel") in
    let fin := (final, lit "hello world") in
    [part; part; part; part; fin; part; part; part; part; fin].
Proof. vm_compute. reflexivity. Qed.

(** The same with a callback that raises on every call. *)
Example ten_frames_failing_sink :
  Bench.transcript
    (surfaced (consume (run_resume (E := Bench.env Bench.healthy)
                          (Some Bench.failing_sink))
                 (repeat op_next 10) 1 GEN_CREATED Bench.fresh))
  = let part := (partial, lit "hel") in
    let fin := (final, lit "hello world") in
    [part; part; part; part; fin; part; part; part; part; fin].
Proof. vm_compute. reflexivity. Qed.

(** The first setup reaches the state [Bench.ready]. *)
Example setup_reaches_ready :
  let r := run_setup (E := Bench.env Bench.healthy) Bench.fresh in
  fst r = Ok tt /\ self (snd r) = self Bench.ready.
Proof. vm_compute. split; reflexivity. Qed.

(* ================================================================== *)
(** ** The properties on the test bench *)

(** On the bench, every release call that fails raises an [Exception]. *)
Lemma bench_release_errors :
  release_errors_are_Exceptions (Bench.env Bench.healthy)
  /\ release_errors_are_Exceptions (Bench.env Bench.no_device)
  /\ release_errors_are_Exceptions (Bench.env Bench.stuck).
Proof.
  repeat split; intros h w e H; cbn in H; try discriminate;
    injection H as <-; reflexivity.
Defined.

(** [close] before the first [next]: the generator is closed, and
    nothing at all was done, [cleanup] included. *)
Lemma run_closed_before_first_next_skips_cleanup :
  let E := Bench.env Bench.healthy in
  gen_op (run_resume (E := E) None) GEN_CREATED op_close 5 Bench.fresh
  = (Returned, GEN_CLOSED, Bench.fresh)
  /\ ~ ends_after_cleanup (E := E) None GEN_CREATED op_close 5 Bench.fresh.
Proof.
  intros E. split; [reflexivity|].
  intros H. destruct (H eq_refl) as (st0 & _ & Hst & _).
  apply (cleanup_acts (E := E) st0). cbn [gen_op gen_close snd] in Hst.
  now rewrite <- Hst.
Qed.

(** A lost device: the first [next] of [run] raises, after [cleanup]
    released the stream and the audio system that the setup had
    opened. *)
Lemma run_cleans_up_witness :
  let E := Bench.env Bench.lost in
  let stopped :=
    gen_op (run_resume (E := E) None) GEN_CREATED op_next 5 Bench.fresh in
  fst stopped = (Raised (OtherException "OSError"), GEN_CLOSED)
  /\ firstn 4 (hist (snd stopped))
     = [A_print "[LiveTranscriber] Audio resources cleaned up";
        A_terminate (Ok tt); A_close (Ok tt); A_stop_stream (Ok tt)]
  /\ exists pending st0,
       run_try (E := E) None GEN_CREATED Next 5 Bench.fresh
       = Some (pending, st0)
       /\ snd stopped = snd (cleanup (E := E) st0).
Proof.
  intros E stopped. split; [vm_compute; reflexivity|].
  split; [vm_compute; reflexivity|].
  destruct (run_cleans_up_before_it_ends (E := E) None GEN_CREATED GEN_CLOSED
              op_next 5 Bench.fresh (snd stopped)
              (Raised (OtherException "OSError")))
    as (pending & st0 & Htry & Hst & _);
    [vm_compute; reflexivity | reflexivity | reflexivity |].
  exists pending, st0. now split.
Defined.

(** A callback that is false when it is passed: the first frame is
    captured and fed to the recognizer, and the callback is not
    called. *)
Lemma falsy_callback_is_never_called :
  let E := Bench.env Bench.healthy in
  let h :=
    hist (final_state
            (consume (ts_resume (E := E) (Some Bench.collecting_sink))
               [op_next] 1 GEN_CREATED Bench.ready)) in
  (captured h = [Bench.frame 0] /\ fed h = [Bench.frame 0] /\ sunk h = [])
  /\ ~ sink_gets_every_frame (E := E) Bench.collecting_sink [op_next] 1
         GEN_CREATED Bench.ready.
Proof.
  intros E h. split; [vm_compute; repeat split|].
  intros [H _]. vm_compute in H. discriminate.
Qed.

(** A callback that is true and raises on every call: it is called with
    each of the three frames, in order. *)
Lemma callback_called_witness :
  let E := Bench.env Bench.healthy in
  let h :=
    hist (final_state
            (consume (run_resume (E := E) (Some Bench.failing_sink))
               (repeat op_next 3) 1 GEN_CREATED Bench.fresh)) in
  (forall k, cb_bool Bench.failing_sink k = true)
  /\ sunk h = [Bench.frame 2; Bench.frame 1; Bench.frame 0]
  /\ sunk h = captured h
  /\ sink_before_feed h.
Proof.
  intros E h.
  assert (Htrue : forall k, cb_bool Bench.failing_sink k = true)
    by reflexivity.
  split; [exact Htrue|]. split; [vm_compute; reflexivity|].
  exact (proj2 (callback_called_before_recognizer (E := E) Bench.failing_sink
                  (repeat op_next 3) 1 GEN_CREATED (init Bench.conf) O O
                  Htrue)).
Defined.

(** [close] at the first event: it returns, and the audio is released. *)
Example run_closed_at_first_event :
  let E := Bench.env Bench.healthy in
  let first := gen_op (run_resume (E := E) None) GEN_CREATED op_next 5
                 Bench.fresh in
  let closed := gen_op (run_resume (E := E) None) (snd (fst first)) op_close 5
                  (snd first) in
  snd (fst first) = GEN_SUSPENDED
  /\ fst closed = (Returned, GEN_CLOSED)
  /\ map neutral (firstn 4 (hist (snd closed))) = [true; true; true; true]
  /\ firstn 4 (hist (snd closed))
     = [A_print "[LiveTranscriber] Audio resources cleaned up";
        A_terminate (Ok tt); A_close (Ok tt); A_stop_stream (Ok tt)]
  /\ stream (self (snd closed)) = None
  /\ p (self (snd closed)) = None.
Proof. vm_compute. repeat split. Qed.

(** An interrupt in the third read: [run] is exhausted, after [cleanup]. *)
Example run_interrupted :
  let E := Bench.env Bench.interrupted in
  let x := consume (run_resume (E := E) None) (repeat op_next 3) 5 GEN_CREATED
             Bench.fresh in
  Bench.transcript (surfaced x) = [(partial, lit "hel"); (partial, lit "hel")]
  /\ last (surfaced x) Timeout = StopIteration
  /\ firstn 5 (hist (final_state x))
     = [A_print "[LiveTranscriber] Audio resources cleaned up";
        A_terminate (Ok tt); A_close (Ok tt); A_stop_stream (Ok tt);
        A_print "[LiveTranscriber] Transcription stopped by user"].
Proof. vm_compute. repeat split. Qed.



(** C7 as stated fails: after [load_model] succeeded and
    [setup_audio_stream] failed to open the device, [cleanup] returns
    and releases the audio system, but the object still holds the
    model. *)
Lemma cleanup_after_failed_open_keeps_the_model :
  let E := Bench.env Bench.no_device in
  let failed := run_setup (E := E) Bench.fresh in
  fst failed = Raise (OtherException "OSError")
  /\ model (self (snd failed)) = Some 3%nat
  /\ model (self (snd (cleanup (E := E) (snd failed)))) = Some 3%nat
  /\ ~ close_leaves_no_handle (E := E) (snd failed).
Proof.
  intros E failed. repeat split; try (vm_compute; reflexivity).
  intros (_ & _ & _ & Hmodel & _). vm_compute in Hmodel. discriminate.
Qed.

(** Cleanup after the failed opening, three times. *)
Lemma cleanup_idempotent_witness :
  let E := Bench.env Bench.no_device in
  let failed := snd (run_setup (E := E) Bench.fresh) in
  release_errors_are_Exceptions E
  /\ fst (cleanup (E := E) (cleanups (E := E) 2 failed)) = Ok tt
  /\ self (cleanups (E := E) 3 failed) = self (cleanups (E := E) 1 failed)
  /\ p (self (cleanups (E := E) 3 failed)) = None.
Proof.
  intros E failed.
  assert (Hrel : release_errors_are_Exceptions E)
    by exact (proj1 (proj2 bench_release_errors)).
  split; [exact Hrel|].
  destruct (cleanup_is_idempotent (E := E) 2 failed Hrel)
    as (Hok & (_ & Hp) & (Hself & _) & _).
  repeat split; assumption.
Defined.

(** C8 as stated fails: in the ready state [cleanup] releases the audio
    handles and nothing else. *)
Lemma cleanup_keeps_recognizer_and_model :
  let E := Bench.env Bench.healthy in
  recognizer (self (snd (cleanup (E := E) Bench.ready))) = Some 4%nat
  /\ model (self (snd (cleanup (E := E) Bench.ready))) = Some 3%nat
  /\ ~ close_releases_both (E := E) Bench.ready.
Proof.
  intros E. repeat split; try (vm_compute; reflexivity).
  intros (_ & Hrec & _). vm_compute in Hrec. discriminate.
Qed.

(** The order of the release calls in the ready state. *)
Lemma cleanup_order_witness :
  let E := Bench.env Bench.healthy in
  release_errors_are_Exceptions E
  /\ stream (self Bench.ready) = Some 2%nat
  /\ p (self Bench.ready) = Some 1%nat
  /\ hist (snd (cleanup (E := E) Bench.ready))
     = [A_print "[LiveTranscriber] Audio resources cleaned up";
        A_terminate (Ok tt); A_close (Ok tt); A_stop_stream (Ok tt)].
Proof.
  intros E.
  assert (Hrel : release_errors_are_Exceptions E)
    by exact (proj1 bench_release_errors).
  split; [exact Hrel|]. split; [reflexivity|]. split; [reflexivity|].
  exact (proj1 (cleanup_releases_audio_in_order (E := E) Bench.ready
                  2%nat 1%nat Hrel eq_refl eq_refl)).
Defined.

(** C9 as stated fails: on a fresh object, with no model loaded,
    [setup_audio_stream] succeeds and leaves the audio system and the
    stream open. *)
Lemma setup_audio_stream_before_load_model_succeeds :
  let E := Bench.env Bench.healthy in
  let st := snd (setup_audio_stream (E := E) Bench.fresh) in
  model (self Bench.fresh) = None
  /\ fst (setup_audio_stream (E := E) Bench.fresh) = Ok tt
  /\ stream (self st) = Some 2%nat
  /\ p (self st) = Some 1%nat
  /\ ~ open_before_load_fails (E := E) Bench.fresh.
Proof.
  intros E st. repeat split; try (vm_compute; reflexivity).
  intros H. destruct (H eq_refl) as (_ & Hstream & _).
  vm_compute in Hstream. discriminate.
Qed.

(** [start_recognition] on a fresh object. *)
Lemma start_recognition_witness :
  let E := Bench.env Bench.healthy in
  model (self Bench.fresh) = None
  /\ start_recognition (E := E) Bench.fresh
     = (Raise (RuntimeError "Model not loaded. Call load_model() first."),
        Bench.fresh).
Proof.
  intros E. split; [reflexivity|].
  exact (proj1 (start_recognition_needs_model (E := E) Bench.fresh eq_refl)).
Defined.

(** Every release call fails: [cleanup] returns all the same. *)
Lemma cleanup_never_raises_witness :
  let E := Bench.env Bench.stuck in
  release_errors_are_Exceptions E
  /\ hist (snd (cleanup (E := E) Bench.ready))
     = [A_print "[LiveTranscriber] Audio resources cleaned up";
        A_terminate (Raise (OtherException "OSError"));
        A_close (Raise (OtherException "OSError"));
        A_stop_stream (Raise (OtherException "OSError"))]
  /\ fst (cleanup (E := E) Bench.ready) = Ok tt
  /\ stream (self (snd (cleanup (E := E) Bench.ready))) = None
  /\ p (self (snd (cleanup (E := E) Bench.ready))) = None.
Proof.
  intros E.
  assert (Hrel : release_errors_are_Exceptions E)
    by exact (proj2 (proj2 bench_release_errors)).
  split; [exact Hrel|]. split; [vm_compute; reflexivity|].
  exact (cleanup_never_raises (E := E) Bench.ready Hrel).
Defined.

(* ================================================================== *)
(** ** Further behaviour of the streaming generator *)

Section Streaming.

Context {W K : Type} {E : Env W}.

Lemma recognize_self (data : bytes) (st : St W K) :
  self (snd (recognize data st)) = self st.
Proof.
  pose proof (feed_self data st) as Hf.
  unfold recognize, try_except, on_vosk_error, print, log, bind, ret.
  destruct (feed data st) as [[s|e] st1]; cbn [fst snd] in *; [exact Hf|].
  destruct (isinstance_Exception e); exact Hf.
Qed.

Lemma loop_body_self (cb : option (callback K)) (st : St W K) :
  self (snd (loop_body cb st)) = self st.
Proof.
  unfold loop_body, bind.
  pose proof (read_frame_self st) as Hr.
  destruct (read_frame st) as [[data|e] st1]; cbn [fst snd] in *; [|exact Hr].
  pose proof (offer_self cb data st1) as Ho.
  destruct (offer cb data st1) as [[[]|e] st2]; cbn [fst snd] in *;
    [|congruence].
  rewrite recognize_self. congruence.
Qed.

(** An [Exception] that leaves a pass of the loop body was raised while
    the frame was acquired. *)
Lemma loop_body_fatal (cb : option (callback K)) (st st1 : St W K) (e : exn) :
  loop_body cb st = (Raise e, st1) ->
  isinstance_Exception e = true ->
  read_frame st = (Raise e, st1).
Proof.
  unfold loop_body, bind. intros Hbody He.
  destruct (read_frame st) as [[data|e0] st0];
    [|now injection Hbody as -> ->].
  destruct (offer_sound cb data st0) as (ds & Hs & _).
  destruct (offer cb data st0) as [[[]|e1] st2]; cbn [fst] in Hs.
  - destruct (recognize_sound data st2) as (df & Hf & _).
    rewrite Hbody in Hf. cbn [fst] in Hf.
    inversion Hf; subst. congruence.
  - injection Hbody as -> ->. inversion Hs; subst. congruence.
Qed.

Lemma read_frame_raises (st st1 : St W K) (e : exn) :
  read_frame st = (Raise e, st1) ->
  stream (self st) = None
  \/ frame_per_buffer (config (self st)) = Raise e
  \/ exists n, hist st1 = A_read n (Raise e) :: hist st.
Proof.
  unfold read_frame, attr_of, bind, get, cfg, call, ret, raise.
  destruct (stream (self st)) as [sh|]; [|now left].
  destruct (frame_per_buffer (config (self st))) as [n|e0].
  - destruct (stream_read sh n (world st)) as [r w].
    intros H. injection H as -> <-. right; right. now exists n.
  - intros H. injection H as -> _. right; now left.
Qed.

(** An [Exception] that ends the loop was met while a frame was
    acquired. *)
Lemma ts_loop_fatal
  (fuel : nat) (cb : option (callback K)) (st st' : St W K) (e : exn) :
  ts_loop fuel cb st = (Raised e, st') ->
  isinstance_Exception e = true ->
  stream (self st) = None
  \/ frame_per_buffer (config (self st)) = Raise e
  \/ exists n d,
       hist st'
       = A_print "[LiveTranscriber] Error during transcription"
         :: A_read n (Raise e) :: d.
Proof.
  revert st. induction fuel as [|fuel IH]; intros st Hloop He;
    cbn [ts_loop] in Hloop; [discriminate|].
  pose proof (loop_body_self cb st) as Hself.
  destruct (loop_body cb st) as [[[|evt]|e0] st1] eqn:Hbody;
    cbn [snd] in Hself.
  - rewrite <- Hself. now apply IH.
  - discriminate.
  - unfold ts_handlers, print, log in Hloop.
    destruct (isinstance_KeyboardInterrupt e0); [discriminate|].
    destruct (isinstance_Exception e0) eqn:He0.
    + injection Hloop as -> <-.
      destruct (read_frame_raises st st1 e (loop_body_fatal cb st st1 e
                                               Hbody He0))
        as [H|[H|[n H]]]; auto.
      right; right. exists n, (hist st). cbn [snd hist]. now rewrite H.
    + injection Hloop as -> _. congruence.
Qed.

Lemma pep479_Exception (e : exn) :
  isinstance_Exception (pep479 e) = isinstance_Exception e.
Proof. now destruct e. Qed.

(** What comes out of a generator came out of its frame. *)
Lemma leave_raised (out : resumed * St W K) (e : exn) (st' : St W K) :
  leave out = (Raised e, st') ->
  exists e0, e = pep479 e0 /\ out = (Raised e0, st').
Proof.
  destruct out as [[evt| |e0| |] st0]; unfold leave; cbn [fst snd leaving];
    intros H; try discriminate.
  injection H as <- <-. now exists e0.
Qed.


(** X12.  The streaming loop never lets a [KeyboardInterrupt] through:
    whatever raised it (the read, the callback or the recognizer), the
    generator ends as an exhausted one.  The same holds for the
    interrupt thrown in at the [yield]. *)
Theorem keyboard_interrupt_ends_the_stream_quietly
  (fuel : nat) (cb : option (callback K)) (st : St W K) :
  fst (ts_loop fuel cb st) <> Raised KeyboardInterrupt
  /\ fst (ts_resume cb GEN_SUSPENDED Next fuel st) <> Raised KeyboardInterrupt
  /\ ts_resume cb GEN_SUSPENDED (Throw KeyboardInterrupt) fuel st
     = (StopIteration,
        mkSt (self st) (world st) (sink st)
          (A_print "[LiveTranscriber] Transcription stopped by user"
           :: hist st)).
Proof.
  assert (Hloop : forall n s, fst (ts_loop n cb s) <> Raised KeyboardInterrupt).
  { induction n as [|n IH]; intros s; cbn [ts_loop]; [discriminate|].
    destruct (loop_body cb s) as [[[|evt]|e] s1]; cbn [fst];
      [apply IH | discriminate |].
    unfold ts_handlers.
    destruct e; cbn [isinstance_KeyboardInterrupt isinstance_Exception fst];
      discriminate. }
  split; [apply Hloop|]. split; [|reflexivity].
  cbn [ts_resume leave fst]. intros H.
  destruct (fst (ts_loop fuel cb st)) as [evt| |e| |] eqn:Hr;
    cbn [leaving] in H; try discriminate.
  apply (Hloop fuel st). rewrite Hr.
  destruct e; cbn [pep479] in H; try discriminate; reflexivity.
Qed.

(** The fetch of the result the source makes after [AcceptWaveform]. *)
Lemma feed_after_accept (data : bytes) (st : St W K) (rh : handle)
  (complete : bool) (w1 w2 : W) (payload : pystr) :
  recognizer (self st) = Some rh ->
  AcceptWaveform rh data (world st) = (Ok complete, w1) ->
  (if complete then Result rh w1 else PartialResult rh w1) = (Ok payload, w2) ->
  feed data st
  = bind (loads payload) (fun res =>
     bind (py_get res (fetch_key complete)) (fun v =>
     bind (py_strip v) (fun txt =>
     if truthy txt then
       bind now (fun ts =>
       yield_ {| type := fetch_kind complete; text := txt; timestamp := ts;
                 raw_result := res |})
     else ret Continue)))
      (mkSt (self st) w2 (sink st)
         (fetch_action complete (Ok payload)
          :: A_AcceptWaveform data (Ok complete) :: hist st)).
Proof.
  intros Hr Ha Hf. unfold feed, attr_of, get, call.
  unfold bind at 1. unfold bind at 1. cbv beta iota. rewrite Hr.
  unfold ret at 1. cbv beta iota.
  unfold bind at 1. rewrite Ha. cbn [world self sink hist].
  destruct complete; unfold bind at 1; cbn [world self sink hist];
    rewrite Hf; reflexivity.
Qed.

(** X13.  A result of the recognizer that has no text entry, or whose
    text is blank, gives no event and no error message: the pass ends
    after the result was fetched. *)
Theorem result_without_text_gives_no_event
  (data : bytes) (st : St W K) (rh : handle) (complete : bool) (w1 w2 : W)
  (payload : pystr) (items : list (pystr * json)) :
  recognizer (self st) = Some rh ->
  AcceptWaveform rh data (world st) = (Ok complete, w1) ->
  (if complete then Result rh w1 else PartialResult rh w1) = (Ok payload, w2) ->
  json_loads payload = Ok (JDict items) ->
  (dict_lookup items (fetch_key complete) = None
   \/ exists s, dict_lookup items (fetch_key complete) = Some (JStr s)
                /\ strip s = []) ->
  recognize data st
  = (Ok Continue,
     mkSt (self st) w2 (sink st)
       (fetch_action complete (Ok payload)
        :: A_AcceptWaveform data (Ok complete) :: hist st)).
Proof.
  intros Hr Ha Hf Hj Htext. unfold recognize, try_except.
  rewrite (feed_after_accept data st rh complete w1 w2 payload Hr Ha Hf).
  unfold loads, py_get, py_strip, bind, ret. rewrite Hj.
  destruct Htext as [Hnone | (s & Hsome & Hblank)].
  - rewrite Hnone. reflexivity.
  - rewrite Hsome, Hblank. reflexivity.
Qed.

(** X14.  A result that cannot be used (the payload is no JSON, or not
    an object, or its text is not a string) is reported as a Vosk
    processing error and skipped: no event, and the pass ends normally. *)
Theorem unusable_result_is_reported_and_skipped
  (data : bytes) (st : St W K) (rh : handle) (complete : bool) (w1 w2 : W)
  (payload : pystr) :
  recognizer (self st) = Some rh ->
  AcceptWaveform rh data (world st) = (Ok complete, w1) ->
  (if complete then Result rh w1 else PartialResult rh w1) = (Ok payload, w2) ->
  ((exists e, json_loads payload = Raise e /\ isinstance_Exception e = true)
   \/ (exists v, json_loads payload = Ok v
                 /\ match v with
                    | JDict items =>
                        exists x, dict_lookup items (fetch_key complete)
                                  = Some x
                                  /\ forall s, x <> JStr s
                    | _ => True
                    end)) ->
  recognize data st
  = (Ok Continue,
     mkSt (self st) w2 (sink st)
       (A_print "[LiveTranscriber] Vosk processing error"
        :: fetch_action complete (Ok payload)
        :: A_AcceptWaveform data (Ok complete) :: hist st)).
Proof.
  intros Hr Ha Hf Hbad. unfold recognize, try_except.
  rewrite (feed_after_accept data st rh complete w1 w2 payload Hr Ha Hf).
  unfold loads, py_get, py_strip, on_vosk_error, print, log, bind, ret, raise.
  destruct Hbad as [(e & Hj & He) | (v & Hj & Hv)]; rewrite Hj.
  - cbv beta iota. rewrite He. reflexivity.
  - destruct v; try reflexivity.
    destruct Hv as (x & Hx & Hstr). rewrite Hx.
    destruct x; try reflexivity. now destruct (Hstr s).
Qed.

(** X15.  A result with a text that is not blank is emitted at once:
    when a frame was read and handed to the callback, and the result
    fetched for it carries such a text, the pass yields the event, of
    the kind [AcceptWaveform] decided, with the stripped text, the
    decoded payload and the time of the clock, whatever the fuel. *)
Theorem usable_result_is_emitted
  (cb : option (callback K)) (fuel : nat) (st st0 st1 : St W K)
  (data : bytes) (rh : handle) (complete : bool) (w1 w2 w3 : W)
  (payload s ts : pystr) (items : list (pystr * json)) :
  read_frame st = (Ok data, st0) ->
  offer cb data st0 = (Ok tt, st1) ->
  recognizer (self st1) = Some rh ->
  AcceptWaveform rh data (world st1) = (Ok complete, w1) ->
  (if complete then Result rh w1 else PartialResult rh w1) = (Ok payload, w2) ->
  json_loads payload = Ok (JDict items) ->
  dict_lookup items (fetch_key complete) = Some (JStr s) ->
  strip s <> [] ->
  now_isoformat w2 = (ts, w3) ->
  let evt := {| type := fetch_kind complete; text := strip s;
                timestamp := ts; raw_result := JDict items |} in
  ts_loop (S fuel) cb st
  = (Yielded evt,
     mkSt (self st1) w3 (sink st1)
       (A_yield evt :: fetch_action complete (Ok payload)
        :: A_AcceptWaveform data (Ok complete) :: hist st1)).
Proof.
  intros Hread Hoffer Hr Ha Hf Hj Hs Hne Hnow evt.
  cbn [ts_loop]. unfold loop_body, bind at 1. rewrite Hread.
  unfold bind at 1. rewrite Hoffer.
  unfold recognize, try_except.
  rewrite (feed_after_accept data st1 rh complete w1 w2 payload Hr Ha Hf).
  unfold loads, py_get, py_strip, now, yield_, log, bind, ret.
  rewrite Hj, Hs. cbn [world self sink hist].
  destruct (strip s) as [|c t] eqn:Hstrip; [now destruct Hne|].
  cbn [truthy world self sink hist]. rewrite Hnow. reflexivity.
Qed.


(** X17.  [close] at the [yield]: on [transcribe_stream] it returns
    without doing anything, so that the audio handles stay as they are;
    on [run] it returns after [cleanup], with the stream and the audio
    system released. *)
Theorem close_releases_the_audio_only_through_run
  (cb : option (callback K)) (fuel : nat) (st : St W K) :
  release_errors_are_Exceptions E ->
  gen_op (ts_resume cb) GEN_SUSPENDED op_close fuel st
  = (Returned, GEN_CLOSED, st)
  /\ gen_op (run_resume cb) GEN_SUSPENDED op_close fuel st
     = (Returned, GEN_CLOSED, snd (cleanup st))
  /\ stream (self (snd (cleanup st))) = None
  /\ p (self (snd (cleanup st))) = None.
Proof.
  intros Hrel. split; [reflexivity|].
  pose proof (cleanup_returns st Hrel) as Hok.
  split; [|now apply cleanup_returned].
  cbn [gen_op gen_close run_resume]. unfold run_finally, leave.
  destruct (cleanup st) as [[[]|e0] st1]; cbn [fst snd] in *;
    [reflexivity | discriminate].
Qed.

Lemma closed_stream_is_inert (cb : option (callback K)) (ops : list op)
  (fuel : nat) (st : St W K) :
  consume (ts_resume cb) ops fuel GEN_CLOSED st
  = (map closed_answer ops, GEN_CLOSED, st).
Proof.
  induction ops as [|o ops IH]; [reflexivity|].
  cbn [consume map]. destruct o as [|e|];
    cbn [gen_op gen_close ts_resume state_after closed_answer];
    rewrite IH; reflexivity.
Qed.

(** A closed generator is inert: [next] gives [StopIteration],
    [throw] gives the exception back, [close] returns, and nothing at
    all is done; neither generator can be started again. *)
Theorem closed_generator_is_inert
  (cb : option (callback K)) (ops : list op) (fuel : nat) (st : St W K) :
  consume (ts_resume cb) ops fuel GEN_CLOSED st
  = (map closed_answer ops, GEN_CLOSED, st)
  /\ consume (run_resume cb) ops fuel GEN_CLOSED st
     = (map closed_answer ops, GEN_CLOSED, st).
Proof.
  split; [apply closed_stream_is_inert|].
  induction ops as [|o ops IH]; [reflexivity|].
  cbn [consume map]. destruct o as [|e|];
    cbn [gen_op gen_close run_resume state_after closed_answer];
    rewrite IH; reflexivity.
Qed.

(** X5.  An object that [__init__] has just built cannot stream: it
    holds no handle, the first [next] of [transcribe_stream] raises
    [RuntimeError] before anything is printed, read or called, and the
    generator is closed for good. *)
Theorem fresh_object_cannot_stream
  (ConfigManager : option (pystr -> result Config)) (arg : config_arg)
  (o : LiveTranscriber) (cb : option (callback K)) (ops : list op)
  (fuel : nat) (w : W) (k : K) :
  construct ConfigManager arg = Ok o ->
  holds_no_handle o
  /\ consume (ts_resume cb) (op_next :: ops) fuel GEN_CREATED (mkSt o w k [])
     = (Raised
          (RuntimeError
             "Audio stream or recognizer not initialized. Call setup and start_recognition first.")
        :: map closed_answer ops,
        GEN_CLOSED, mkSt o w k []).
Proof.
  intros Hnew.
  assert (Hinit : exists c, o = init c).
  { unfold construct in Hnew. destruct arg as [path| |c]; [|discriminate|].
    - destruct ConfigManager as [new|]; [|discriminate].
      destruct (new path) as [c|e]; [|discriminate].
      injection Hnew as <-. now exists c.
    - injection Hnew as <-. now exists c. }
  destruct Hinit as [c ->]. split; [now repeat split|].
  cbn [consume gen_op ts_resume]. unfold ts_enter, bind, get, raise, leave.
  cbn [init self stream recognizer fst snd state_after leaving pep479].
  rewrite (closed_stream_is_inert cb ops fuel (mkSt (init c) w k [])).
  reflexivity.
Qed.

Lemma ts_handlers_self (e : exn) (st : St W K) :
  self (snd (ts_handlers e st)) = self st.
Proof.
  unfold ts_handlers, print, log.
  destruct (isinstance_KeyboardInterrupt e); [reflexivity|].
  destruct (isinstance_Exception e); reflexivity.
Qed.

Lemma ts_loop_self (fuel : nat) (cb : option (callback K)) (st : St W K) :
  self (snd (ts_loop fuel cb st)) = self st.
Proof.
  revert st. induction fuel as [|fuel IH]; intros st; cbn [ts_loop];
    [reflexivity|].
  pose proof (loop_body_self cb st) as Hb.
  destruct (loop_body cb st) as [[[|evt]|e] st1]; cbn [fst snd] in *.
  - now rewrite IH.
  - exact Hb.
  - now rewrite ts_handlers_self.
Qed.

(** The streaming generator never assigns an attribute of [self]. *)
Lemma ts_resume_self (cb : option (callback K)) (g : gen_state) (s : send)
  (fuel : nat) (st : St W K) :
  self (snd (ts_resume cb g s fuel st)) = self st.
Proof.
  destruct g, s as [|e]; cbn [ts_resume]; try reflexivity.
  - unfold ts_enter, print, log, bind, get, ret, raise.
    destruct (stream (self st)), (recognizer (self st));
      cbn [fst snd leave]; try reflexivity.
    now rewrite ts_loop_self.
  - cbn [snd leave]. apply ts_loop_self.
  - unfold thrown_at_yield, try_except, raise, on_vosk_error, print, log,
      bind, ret.
    destruct (isinstance_Exception e); cbn [snd leave].
    + now rewrite ts_loop_self.
    + now rewrite ts_handlers_self.
Qed.

(** What the frames of a history are fed with, pass by pass. *)
Lemma read_frame_frames (st : St W K) :
  fed (hist (snd (read_frame st))) = fed (hist st)
  /\ captured (hist (snd (read_frame st)))
     = match fst (read_frame st) with
       | Ok data => data :: captured (hist st)
       | Raise _ => captured (hist st)
       end.
Proof.
  unfold read_frame, attr_of, bind, get, cfg, call, ret, raise.
  step_through; now split.
Qed.

Lemma offer_frames (cb : option (callback K)) (data : bytes) (st : St W K) :
  callback_never_escapes cb ->
  fst (offer cb data st) = Ok tt
  /\ fed (hist (snd (offer cb data st))) = fed (hist st)
  /\ captured (hist (snd (offer cb data st))) = captured (hist st).
Proof.
  intros Hcb. destruct cb as [f|]; [|now repeat split].
  unfold offer, try_except, call_callback, print, log, ret.
  destruct (cb_bool f (sink st)); [|now repeat split].
  pose proof (Hcb data (sink st)) as He.
  destruct (cb_call f data (sink st)) as [[[]|e] k]; cbn [fst snd] in *.
  - now repeat split.
  - rewrite (He e eq_refl). now repeat split.
Qed.

Lemma recognize_frames (data : bytes) (st : St W K) (rh : handle) :
  recognizer (self st) = Some rh ->
  fed (hist (snd (recognize data st))) = data :: fed (hist st)
  /\ captured (hist (snd (recognize data st))) = captured (hist st).
Proof.
  intros Hr.
  unfold recognize, try_except, on_vosk_error, feed, yield_, py_get,
    py_strip, attr_of, loads, now, print, call, get, log, bind, ret, raise.
  rewrite Hr.
  step_through; now split.
Qed.

Lemma loop_body_frames (cb : option (callback K)) (st : St W K) (rh : handle) :
  recognizer (self st) = Some rh ->
  callback_never_escapes cb ->
  fed (hist st) = captured (hist st) ->
  fed (hist (snd (loop_body cb st))) = captured (hist (snd (loop_body cb st))).
Proof.
  intros Hr Hcb Hinv. unfold loop_body, bind.
  destruct (read_frame_frames st) as [Hf Hc].
  pose proof (read_frame_self st) as Hs.
  destruct (read_frame st) as [[data|e] st1]; cbn [fst snd] in *;
    [|congruence].
  destruct (offer_frames cb data st1 Hcb) as (Hok & Hf1 & Hc1).
  pose proof (offer_self cb data st1) as Hs1.
  destruct (offer cb data st1) as [[[]|e] st2]; cbn [fst snd] in *;
    [|discriminate].
  assert (Hr2 : recognizer (self st2) = Some rh) by congruence.
  destruct (recognize_frames data st2 rh Hr2) as [Hf2 Hc2].
  congruence.
Qed.

Lemma ts_handlers_frames (e : exn) (st : St W K) :
  fed (hist (snd (ts_handlers e st))) = fed (hist st)
  /\ captured (hist (snd (ts_handlers e st))) = captured (hist st).
Proof.
  unfold ts_handlers, print, log.
  destruct (isinstance_KeyboardInterrupt e); [now split|].
  destruct (isinstance_Exception e); now split.
Qed.

Lemma ts_loop_frames (fuel : nat) (cb : option (callback K)) (st : St W K)
  (rh : handle) :
  recognizer (self st) = Some rh ->
  callback_never_escapes cb ->
  fed (hist st) = captured (hist st) ->
  fed (hist (snd (ts_loop fuel cb st)))
  = captured (hist (snd (ts_loop fuel cb st))).
Proof.
  intros Hr Hcb. revert st Hr.
  induction fuel as [|fuel IH]; intros st Hr Hinv; cbn [ts_loop];
    [exact Hinv|].
  pose proof (loop_body_frames cb st rh Hr Hcb Hinv) as Hb.
  pose proof (loop_body_self cb st) as Hs.
  destruct (loop_body cb st) as [[[|evt]|e] st1]; cbn [fst snd] in *.
  - apply IH; congruence.
  - exact Hb.
  - destruct (ts_handlers_frames e st1) as [-> ->]. exact Hb.
Qed.

Lemma ts_resume_frames (cb : option (callback K)) (g : gen_state) (s : send)
  (fuel : nat) (st : St W K) (rh : handle) :
  recognizer (self st) = Some rh ->
  callback_never_escapes cb ->
  fed (hist st) = captured (hist st) ->
  fed (hist (snd (ts_resume cb g s fuel st)))
  = captured (hist (snd (ts_resume cb g s fuel st))).
Proof.
  intros Hr Hcb Hinv.
  destruct g, s as [|e]; cbn [ts_resume]; try exact Hinv.
  - unfold ts_enter, print, log, bind, get, ret, raise.
    rewrite Hr.
    destruct (stream (self st)); cbn [fst snd leave]; try exact Hinv.
    now apply ts_loop_frames with (rh := rh).
  - cbn [snd leave]. now apply ts_loop_frames with (rh := rh).
  - unfold thrown_at_yield, try_except, raise, on_vosk_error, print, log,
      bind, ret.
    destruct (isinstance_Exception e); cbn [snd leave].
    + now apply ts_loop_frames with (rh := rh).
    + now destruct (ts_handlers_frames e st) as [-> ->].
Qed.


End Streaming.

(* ================================================================== *)
(** ** Setup, and the life of the runner *)

Section Lifecycle.

Context {W K : Type} {E : Env W}.

(** A started generator [run] that an operation leaves closed is left
    in a state that [cleanup] left. *)
Lemma run_closed_state
  (cb : option (callback K)) (g : gen_state) (o : op) (fuel : nat)
  (st st' : St W K) (r : resumed) :
  gen_op (run_resume cb) g o fuel st = (r, GEN_CLOSED, st') ->
  started g o = true ->
  exists st0, st' = snd (cleanup st0).
Proof.
  intros Hop Hstarted.
  assert (Hfor : forall inner (s s' : St W K) r1,
             leave (run_for cb inner fuel s) = (r1, s') ->
             state_after r1 = GEN_CLOSED ->
             exists st0, s' = snd (cleanup st0)).
  { intros inner s s' r1 H Hg. unfold leave in H. injection H as <- <-.
    rewrite leaving_state in Hg. rewrite (run_for_ends _ _ _ _ Hg).
    rewrite run_finally_state. now eexists. }
  assert (Hfin : forall pending (s s' : St W K) r1,
             leave (run_finally pending s) = (r1, s') ->
             exists st0, s' = snd (cleanup st0)).
  { intros pending s s' r1 H. unfold leave in H. injection H as _ <-.
    rewrite run_finally_state. now eexists. }
  destruct o as [|e|]; destruct g; try discriminate;
    cbn [gen_op gen_close run_resume] in Hop.
  - destruct (run_setup st) as [[[]|e] st1].
    + destruct (leave (run_for cb GEN_CREATED fuel st1)) as [r1 st2] eqn:Hrun.
      injection Hop as <- Hg <-. exact (Hfor _ _ _ _ Hrun Hg).
    + destruct (leave (run_finally (Raised e) st1)) as [r1 st2] eqn:Hrun.
      injection Hop as <- _ <-. exact (Hfin _ _ _ _ Hrun).
  - destruct (leave (run_for cb GEN_SUSPENDED fuel st)) as [r1 st2] eqn:Hrun.
    injection Hop as <- Hg <-. exact (Hfor _ _ _ _ Hrun Hg).
  - destruct (leave (run_finally (Raised e) st)) as [r1 st2] eqn:Hrun.
    injection Hop as <- _ <-. exact (Hfin _ _ _ _ Hrun).
  - destruct (leave (run_finally (Raised GeneratorExit) st)) as [r1 st2]
      eqn:Hrun.
    assert (Hst : st' = st2)
      by (destruct r1 as [evt| |[]| |]; cbn in Hop; congruence).
    subst st'. exact (Hfin _ _ _ _ Hrun).
Qed.

(** X8.  When the release calls fail with nothing but [Exception]s, the
    generator [run] never ends with an audio handle left in the object:
    whenever an operation of the caller on a started generator leaves
    it closed (exhausted, failed in any phase, or closed by the
    caller), the stream and the audio system attributes are [None]. *)
Theorem run_leaves_no_audio_handle
  (cb : option (callback K)) (g g' : gen_state) (o : op) (fuel : nat)
  (st st' : St W K) (r : resumed) :
  release_errors_are_Exceptions E ->
  gen_op (run_resume cb) g o fuel st = (r, g', st') ->
  started g o = true ->
  g' = GEN_CLOSED ->
  stream (self st') = None /\ p (self st') = None.
Proof.
  intros Hrel Hop Hstarted Hclosed. subst g'.
  destruct (run_closed_state cb g o fuel st st' r Hop Hstarted) as [st0 ->].
  apply cleanup_returned. now apply cleanup_returns.
Qed.

Lemma run_finally_passes (pending : resumed) (st : St W K) :
  release_errors_are_Exceptions E ->
  fst (run_finally pending st) = pending.
Proof.
  intros Hrel. unfold run_finally.
  pose proof (cleanup_returns st Hrel) as Hok.
  destruct (cleanup st) as [[[]|e] st1]; cbn [fst] in *;
    [reflexivity | discriminate].
Qed.

(** X20.  When the release calls fail with nothing but [Exception]s,
    [run] gives its caller exactly what [transcribe_stream] gives: the
    same event, or the same ending ([StopIteration] or the same
    exception), at the first [next] once the setup succeeded and at
    every later [next]. *)
Theorem run_passes_on_what_the_stream_gives
  (cb : option (callback K)) (fuel : nat) (st st1 : St W K) :
  release_errors_are_Exceptions E ->
  fst (run_resume cb GEN_SUSPENDED Next fuel st)
  = fst (ts_resume cb GEN_SUSPENDED Next fuel st)
  /\ (run_setup st = (Ok tt, st1) ->
      fst (run_resume cb GEN_CREATED Next fuel st)
      = fst (ts_resume cb GEN_CREATED Next fuel st1)).
Proof.
  intros Hrel.
  assert (Hfor : forall inner s,
             fst (run_for cb inner fuel s)
             = fst (ts_resume cb inner Next fuel s)).
  { intros inner s. unfold run_for.
    destruct (ts_resume cb inner Next fuel s) as [[evt| |e| |] s1];
      cbn [fst]; try reflexivity; now apply run_finally_passes. }
  split.
  - cbn [run_resume ts_resume leave fst]. rewrite Hfor.
    cbn [ts_resume leave fst]. apply leaving_idem.
  - intros Hsetup. cbn [run_resume]. rewrite Hsetup.
    cbn [leave fst]. rewrite Hfor. cbn [ts_resume].
    destruct (ts_enter st1) as [[[]|e] st2]; cbn [leave fst];
      apply leaving_idem.
Qed.

(** X6.  Without a usable model path in the configuration (the value is
    empty or not a string), the first [next] of [run] on an object
    without audio handles raises [FileNotFoundError] and closes the
    generator; no collaborator is called (no model is loaded, no device
    opened, no frame read): only the message of [cleanup] is printed. *)
Theorem run_without_model_path
  (cb : option (callback K)) (fuel : nat) (st : St W K) :
  vosk_model_path (config (self st)) = Ok None
  \/ vosk_model_path (config (self st)) = Ok (Some []) ->
  stream (self st) = None ->
  p (self st) = None ->
  gen_op (run_resume cb) GEN_CREATED op_next fuel st
  = (Raised (FileNotFoundError "Vosk model path is missing in config"),
     GEN_CLOSED,
     mkSt (self st) (world st) (sink st)
       (A_print "[LiveTranscriber] Audio resources cleaned up" :: hist st)).
Proof.
  intros Hpath Hs Hp. cbn [gen_op run_resume].
  assert (Hsetup : run_setup st
                   = (Raise (FileNotFoundError
                               "Vosk model path is missing in config"), st)).
  { unfold run_setup, load_model, bind, cfg, raise.
    destruct Hpath as [-> | ->]; reflexivity. }
  rewrite Hsetup. unfold run_finally, leave. rewrite (cleanup_idle st Hs Hp).
  reflexivity.
Qed.

(** X7.  The device index of the configuration is passed to
    [PyAudio.open] only when it is not zero: with the index 0 the call
    is made without [input_device_index], as if none were configured. *)
Theorem device_index_zero_is_not_passed (st : St W K) (d : Z) (kw : open_kwargs) :
  device_index (config (self st)) = Some (Ok d) ->
  In kw (opened_with (hist (snd (setup_audio_stream st)))) ->
  In kw (opened_with (hist st))
  \/ kw_input_device_index kw = (if Z.eqb d 0 then None else Some d).
Proof.
  intros Hd.
  unfold setup_audio_stream, hasattr, getattr, set_p, set_stream, update,
    print, call, cfg, log, bind, ret, raise.
  step_through; cbn [opened_with]; intros Hin; auto;
    repeat match goal with
           | H : device_index _ = _ |- _ =>
               rewrite Hd in H; try discriminate; injection H as H
           end;
    subst; try discriminate.
  all: destruct Hin as [<- | Hin]; auto.
  all: right; cbn [kw_input_device_index]; congruence.
Qed.

(** X9.  [start_recognition] takes word timing as a wish: when the
    model is loaded and the recognizer could be created, it returns
    normally with the recognizer set, whatever the configuration says
    about word timing and whether or not [SetWords] exists or works,
    as long as these fail with nothing but [Exception]s. *)
Theorem start_recognition_tolerates_word_timing
  (st : St W K) (mh r : handle) (rate : Z) (w1 : W) :
  model (self st) = Some mh ->
  sample_rate (config (self st)) = Ok rate ->
  KaldiRecognizer mh rate (world st) = (Ok r, w1) ->
  (forall e, vosk_enable_word_timing (config (self st)) = Some (Raise e) ->
             isinstance_Exception e = true) ->
  (forall w e, fst (SetWords r true w) = Raise e ->
               isinstance_Exception e = true) ->
  fst (start_recognition st) = Ok tt
  /\ recognizer (self (snd (start_recognition st))) = Some r
  /\ model (self (snd (start_recognition st))) = Some mh.
Proof.
  intros Hm Hrate Hk Hflag Hset.
  unfold start_recognition, try_pass, try_except, getattr_default,
    set_recognizer, update, print, call, cfg, get, log, bind, ret, raise.
  cbv beta iota. rewrite Hm. cbv beta iota. rewrite Hrate. cbv beta iota.
  rewrite Hk. cbn [fst snd self world sink hist config].
  destruct (vosk_enable_word_timing (config (self st))) as [[flag|e]|].
  - destruct flag; [|cbn; now repeat split].
    destruct (has_SetWords r); [|cbn; now repeat split].
    cbn [fst snd self world sink hist].
    pose proof (Hset w1) as Hw.
    destruct (SetWords r true w1) as [[[]|e] w2]; cbn [fst snd] in *;
      [cbn; now repeat split|].
    rewrite (Hw e eq_refl). cbn. now repeat split.
  - specialize (Hflag e eq_refl).
    destruct (isinstance_AttributeError e); [cbn; now repeat split|].
    cbn [fst snd]. rewrite Hflag. cbn. now repeat split.
  - cbn. now repeat split.
Qed.

(** X10.  [SetWords] is called when, and only when, the configuration
    asks for word timing and the recognizer has the method; it is then
    called once. *)
Theorem set_words_called_iff_requested_and_supported
  (st : St W K) (mh r : handle) (rate : Z) (w1 : W) :
  model (self st) = Some mh ->
  sample_rate (config (self st)) = Ok rate ->
  KaldiRecognizer mh rate (world st) = (Ok r, w1) ->
  let requested :=
    match vosk_enable_word_timing (config (self st)) with
    | Some (Ok flag) => flag
    | _ => false
    end in
  set_words_calls (hist (snd (start_recognition st)))
  = ((if (requested && has_SetWords r)%bool then 1 else 0)
     + set_words_calls (hist st))%nat.
Proof.
  intros Hm Hrate Hk.
  unfold start_recognition, try_pass, try_except, getattr_default,
    set_recognizer, update, print, call, cfg, get, log, bind, ret, raise.
  cbv beta iota. rewrite Hm. cbv beta iota. rewrite Hrate. cbv beta iota.
  rewrite Hk. cbn [fst snd self world sink hist config].
  destruct (vosk_enable_word_timing (config (self st))) as [[flag|e]|];
    cbv zeta.
  - destruct flag; [|reflexivity].
    destruct (has_SetWords r); [|reflexivity].
    cbn [fst snd self world sink hist].
    destruct (SetWords r true w1) as [[[]|e] w2]; cbn [fst snd];
      [reflexivity|].
    destruct (isinstance_Exception e); cbn [fst snd];
      destruct (isinstance_Exception e); reflexivity.
  - destruct (isinstance_AttributeError e); [reflexivity|].
    cbn [fst snd]. destruct (isinstance_Exception e); reflexivity.
  - reflexivity.
Qed.

(** After a failed [setup_audio_stream] the audio system it created is
    in [self.p], and the stream attribute is as before. *)
Lemma failed_setup_keeps_the_audio_system (st : St W K) (ph : handle)
  (w1 : W) (e : exn) :
  PyAudio (world st) = (Ok ph, w1) ->
  fst (setup_audio_stream st) = Raise e ->
  p (self (snd (setup_audio_stream st))) = Some ph
  /\ stream (self (snd (setup_audio_stream st))) = stream (self st).
Proof.
  intros Hpa.
  unfold setup_audio_stream, hasattr, getattr, set_p, set_stream, update,
    print, call, cfg, log, bind, ret, raise.
  rewrite Hpa.
  step_through; intros; try discriminate; try congruence; now split.
Qed.

(** X21.  A failed opening of the device does not leak the audio
    system: when [PyAudio()] succeeded and [setup_audio_stream] then
    failed (the device could not be opened, or the configuration could
    not be read), the object holds the audio system and no stream, and
    [cleanup] terminates that audio system, once, and does nothing
    else. *)
Theorem failed_open_is_cleaned_up (st : St W K) (ph : handle) (w1 : W)
  (e : exn) :
  release_errors_are_Exceptions E ->
  stream (self st) = None ->
  PyAudio (world st) = (Ok ph, w1) ->
  fst (setup_audio_stream st) = Raise e ->
  let st1 := snd (setup_audio_stream st) in
  let terminated := pa_terminate ph (world st1) in
  p (self st1) = Some ph
  /\ stream (self st1) = None
  /\ fst (cleanup st1) = Ok tt
  /\ hist (snd (cleanup st1))
     = A_print "[LiveTranscriber] Audio resources cleaned up"
       :: A_terminate (fst terminated) :: hist st1
  /\ world (snd (cleanup st1)) = snd terminated
  /\ p (self (snd (cleanup st1))) = None.
Proof.
  intros Hrel Hs Hpa Hfail st1 terminated.
  destruct (failed_setup_keeps_the_audio_system st ph w1 e Hpa Hfail)
    as [Hp Hstream].
  fold st1 in Hp, Hstream. rewrite Hs in Hstream.
  split; [exact Hp|]. split; [exact Hstream|].
  subst terminated.
  destruct Hrel as (_ & _ & Hterm). specialize (Hterm ph (world st1)).
  unfold cleanup, try_pass, try_except, set_stream, set_p, update, print,
    call, get, log, bind, ret, raise.
  rewrite Hstream. cbn [fst snd self world sink hist p]. rewrite Hp.
  destruct (pa_terminate ph (world st1)) as [[[]|e1] w2];
    cbn [fst snd self world sink hist p] in *.
  - now repeat split.
  - rewrite (Hterm e1 eq_refl). cbn [fst snd self world sink hist p].
    now repeat split.
Qed.

End Lifecycle.

(* ================================================================== *)
(** ** Paths and the project root *)

Lemma pystr_eqb_eq (a b : pystr) : PyStr.eqb a b = true <-> a = b.
Proof.
  unfold PyStr.eqb. destruct (list_eq_dec N.eq_dec a b); split; congruence.
Qed.

Lemma path_eqb_eq (a b : Path.dirpath) : Path.eqb a b = true <-> a = b.
Proof.
  unfold Path.eqb. destruct a as [da la], b as [db lb].
  cbn [Path.double Path.comps].
  destruct (list_eq_dec (list_eq_dec N.eq_dec) la lb) as [Hl|Hl];
    destruct da, db; cbn [Bool.eqb andb]; split; congruence.
Qed.

Lemma follow_app (d : list pystr) (a b : list pystr) :
  Path.follow d (a ++ b) = Path.follow (Path.follow d a) b.
Proof.
  revert d. induction a as [|c a IH]; intros d; cbn [Path.follow app];
    [reflexivity|].
  destruct (PyStr.eqb c [] || PyStr.eqb c Path.dot)%bool; [apply IH|].
  destruct (PyStr.eqb c Path.dotdot); apply IH.
Qed.

Lemma follow_kept (d : list pystr) (l : list pystr) :
  forallb Path.kept l = true -> Path.follow d l = rev l ++ d.
Proof.
  revert d. induction l as [|c l IH]; intros d Hl; cbn [Path.follow];
    [reflexivity|].
  cbn [forallb] in Hl. apply andb_prop in Hl as [Hc Hl].
  unfold Path.kept in Hc. apply negb_true_iff in Hc.
  apply orb_false_elim in Hc as [Hc Hdd].
  rewrite Hc, Hdd. rewrite IH by assumption.
  cbn [rev]. now rewrite <- app_assoc.
Qed.

Lemma kept_rev (l : list pystr) :
  forallb Path.kept l = true -> forallb Path.kept (rev l) = true.
Proof.
  intros H. rewrite forallb_forall in *.
  intros x Hx. apply H. now apply in_rev.
Qed.

(** Following the components of a directory from the root gives them
    back. *)
Lemma follow_of_dir (l : list pystr) :
  forallb Path.kept l = true -> Path.follow [] (rev l) = l.
Proof.
  intros H. rewrite follow_kept by now apply kept_rev.
  now rewrite rev_involutive, app_nil_r.
Qed.

Lemma kept_tl (l : list pystr) :
  forallb Path.kept l = true -> forallb Path.kept (tl l) = true.
Proof.
  destruct l as [|c l]; [trivial|].
  cbn [forallb tl]. intros H. now apply andb_prop in H as [_ H].
Qed.

Lemma follow_keeps (d : list pystr) (l : list pystr) :
  forallb Path.kept d = true -> forallb Path.kept (Path.follow d l) = true.
Proof.
  revert d. induction l as [|c l IH]; intros d Hd; cbn [Path.follow];
    [exact Hd|].
  destruct (PyStr.eqb c [] || PyStr.eqb c Path.dot)%bool eqn:H1; [now apply IH|].
  destruct (PyStr.eqb c Path.dotdot) eqn:H2.
  - apply IH. now apply kept_tl.
  - apply IH. cbn [forallb]. unfold Path.kept at 1.
    rewrite H1, H2. exact Hd.
Qed.

Lemma abspath_clean (cwd : Path.dirpath) (pn : Path.pathname) :
  Path.clean cwd -> Path.clean (Path.abspath cwd pn).
Proof.
  intros H. unfold Path.abspath, Path.clean.
  destruct (Path.lead pn); cbn [Path.comps]; apply follow_keeps;
    [exact H | reflexivity | reflexivity].
Qed.

Lemma dirname_clean (d : Path.dirpath) :
  Path.clean d -> Path.clean (Path.dirname d).
Proof. intros H. unfold Path.clean, Path.dirname. now apply kept_tl. Qed.

(** The three paths the search makes absolute. *)
Lemma abspath_child (cwd cur : Path.dirpath) :
  Path.clean cur ->
  Path.abspath cwd
    (Path.join (Path.of_dir cur) (Path.name "transcripts_pipeline"))
  = Path.child marker cur.
Proof.
  destruct cur as [dbl l]. unfold Path.clean. cbn [Path.comps]. intros H.
  unfold Path.abspath, Path.join, Path.of_dir, Path.name, Path.child,
    Path.is_abs.
  cbn [Path.lead Path.parts Path.double Path.comps].
  destruct dbl; cbn [Path.lead Path.parts];
    rewrite follow_app, follow_of_dir by exact H; reflexivity.
Qed.

Lemma abspath_parent (cwd cur : Path.dirpath) :
  Path.clean cur ->
  Path.abspath cwd (Path.join (Path.of_dir cur) (Path.name ".."))
  = Path.dirname cur.
Proof.
  destruct cur as [dbl l]. unfold Path.clean. cbn [Path.comps]. intros H.
  unfold Path.abspath, Path.join, Path.of_dir, Path.name, Path.dirname,
    Path.is_abs.
  cbn [Path.lead Path.parts Path.double Path.comps].
  destruct dbl; cbn [Path.lead Path.parts];
    rewrite follow_app, follow_of_dir by exact H; reflexivity.
Qed.

Lemma ancestors_unfold (d : Path.dirpath) :
  Path.ancestors d
  = d :: match Path.comps d with
         | [] => []
         | _ :: _ => Path.ancestors (Path.dirname d)
         end.
Proof.
  destruct d as [dbl [|c l]]; reflexivity.
Qed.

Lemma dirname_of_root (d : Path.dirpath) :
  Path.comps d = [] -> Path.dirname d = d.
Proof. destruct d as [dbl l]. cbn. now intros ->. Qed.

(** The loop, one directory after the other. *)
Lemma search_up_step (cwd : Path.dirpath) (isdir : Path.dirpath -> bool)
  (fuel : nat) (cur : Path.dirpath) :
  Path.clean cur ->
  search_up cwd isdir (S fuel) cur
  = if isdir (Path.child marker cur) then Some (Some cur)
    else if negb (Path.double cur)
            && match Path.comps cur with [] => true | _ :: _ => false end
    then Some None
    else search_up cwd isdir fuel (Path.dirname cur).
Proof.
  intros H. cbn [search_up]. cbv zeta.
  rewrite abspath_child, abspath_parent by exact H.
  destruct (isdir (Path.child marker cur)); [reflexivity|].
  destruct cur as [[] [|c up]]; reflexivity.
Qed.

Lemma search_up_found (cwd : Path.dirpath) (isdir : Path.dirpath -> bool)
  (fuel : nat) (cur root : Path.dirpath) :
  Path.clean cur ->
  search_up cwd isdir fuel cur = Some (Some root) ->
  exists near far,
    Path.ancestors cur = near ++ root :: far
    /\ isdir (Path.child marker root) = true
    /\ Forall (fun d => isdir (Path.child marker d) = false) near.
Proof.
  revert cur. induction fuel as [|fuel IH]; intros cur Hc Hs;
    [discriminate|].
  rewrite search_up_step in Hs by exact Hc.
  rewrite ancestors_unfold.
  destruct (isdir (Path.child marker cur)) eqn:Hd.
  - injection Hs as <-. exists []. eexists. repeat split; [exact Hd|].
    constructor.
  - destruct (negb (Path.double cur)
              && match Path.comps cur with [] => true | _ :: _ => false end)%bool;
      [discriminate|].
    destruct (IH _ (dirname_clean cur Hc) Hs) as (near & far & Hsplit & Hroot & Hnear).
    destruct (Path.comps cur) as [|c up] eqn:Hcomps.
    + rewrite (dirname_of_root cur Hcomps), ancestors_unfold, Hcomps in Hsplit.
      exists near, far. now repeat split.
    + exists (cur :: near), far. rewrite Hsplit. repeat split; [exact Hroot|].
      now constructor.
Qed.

Lemma search_up_none (cwd : Path.dirpath) (isdir : Path.dirpath -> bool)
  (fuel : nat) (cur : Path.dirpath) :
  Path.clean cur ->
  search_up cwd isdir fuel cur = Some None ->
  Path.double cur = false
  /\ Forall (fun d => isdir (Path.child marker d) = false)
       (Path.ancestors cur).
Proof.
  revert cur. induction fuel as [|fuel IH]; intros cur Hc Hs;
    [discriminate|].
  rewrite search_up_step in Hs by exact Hc.
  rewrite ancestors_unfold.
  destruct (isdir (Path.child marker cur)) eqn:Hd; [discriminate|].
  destruct (Path.double cur) eqn:Hdbl; cbn [negb andb] in Hs.
  - destruct (IH _ (dirname_clean cur Hc) Hs) as [Hfalse _].
    cbn [Path.dirname Path.double] in Hfalse. congruence.
  - split; [reflexivity|].
    destruct (Path.comps cur) as [|c up] eqn:Hcomps.
    + repeat constructor. exact Hd.
    + constructor; [exact Hd|].
      exact (proj2 (IH _ (dirname_clean cur Hc) Hs)).
Qed.

Lemma search_up_ends (cwd : Path.dirpath) (isdir : Path.dirpath -> bool)
  (fuel : nat) (cur : Path.dirpath) :
  Path.clean cur ->
  Path.double cur = false ->
  (List.length (Path.comps cur) < fuel)%nat ->
  exists r, search_up cwd isdir fuel cur = Some r.
Proof.
  revert cur. induction fuel as [|fuel IH]; intros cur Hc Hdbl Hlen; [lia|].
  rewrite search_up_step by exact Hc.
  destruct (isdir (Path.child marker cur)); [now eexists|].
  rewrite Hdbl. cbn [negb andb].
  destruct (Path.comps cur) as [|c up] eqn:Hcomps; [now eexists|].
  apply IH; [now apply dirname_clean | exact Hdbl |].
  cbn [Path.dirname Path.comps]. rewrite Hcomps.
  cbn [tl List.length] in *. lia.
Qed.

Lemma search_up_hangs (cwd : Path.dirpath) (isdir : Path.dirpath -> bool)
  (fuel : nat) (cur : Path.dirpath) :
  Path.clean cur ->
  Path.double cur = true ->
  Forall (fun d => isdir (Path.child marker d) = false) (Path.ancestors cur) ->
  search_up cwd isdir fuel cur = None.
Proof.
  revert cur. induction fuel as [|fuel IH]; intros cur Hc Hdbl Hno;
    [reflexivity|].
  rewrite search_up_step by exact Hc.
  rewrite ancestors_unfold in Hno. inversion Hno as [|x xs Hd Hrest]; subst.
  rewrite Hd, Hdbl. cbn [negb andb].
  apply IH; [now apply dirname_clean | exact Hdbl |].
  destruct (Path.comps cur) as [|c up] eqn:Hcomps; [|exact Hrest].
  rewrite (dirname_of_root cur Hcomps), ancestors_unfold, Hcomps.
  now constructor.
Qed.

(** X1.  When [find_project_root_with_transcripts_pipeline] returns a
    directory, it is the start or a directory above it, it has a child
    folder [transcripts_pipeline], and no directory between the start
    and it has one: the nearest such directory is returned. *)
Theorem project_root_is_the_nearest_marked_directory
  (cwd : Path.dirpath) (file : Path.pathname) (isdir : Path.dirpath -> bool)
  (start_path : option Path.pathname) (root : Path.dirpath) :
  Path.clean cwd ->
  find_project_root_with_transcripts_pipeline cwd file isdir start_path
  = Some (Some root) ->
  exists near far,
    Path.ancestors (search_start cwd file start_path) = near ++ root :: far
    /\ isdir (Path.child marker root) = true
    /\ Forall (fun d => isdir (Path.child marker d) = false) near.
Proof.
  intros Hcwd Hfind. unfold find_project_root_with_transcripts_pipeline in Hfind.
  eapply search_up_found; [|exact Hfind].
  unfold search_start. now apply abspath_clean.
Qed.

(** X2.  From a start that, made absolute, does not begin with two
    slashes, the search for the project root ends, and it returns [None]
    exactly when neither the start nor any directory above it, the root
    included, has a child folder [transcripts_pipeline]. *)
Theorem project_root_search_ends
  (cwd : Path.dirpath) (file : Path.pathname) (isdir : Path.dirpath -> bool)
  (start_path : option Path.pathname) :
  Path.clean cwd ->
  Path.double (search_start cwd file start_path) = false ->
  exists r,
    find_project_root_with_transcripts_pipeline cwd file isdir start_path
    = Some r
    /\ (r = None <->
        Forall (fun d => isdir (Path.child marker d) = false)
          (Path.ancestors (search_start cwd file start_path))).
Proof.
  intros Hcwd Hdbl. unfold find_project_root_with_transcripts_pipeline.
  assert (Hc : Path.clean (search_start cwd file start_path))
    by (unfold search_start; now apply abspath_clean).
  destruct (search_up_ends cwd isdir
              (S (List.length (Path.comps (search_start cwd file start_path))))
              (search_start cwd file start_path) Hc Hdbl) as [r Hr]; [lia|].
  exists r. split; [exact Hr|]. split.
  - intros ->. now apply (search_up_none cwd isdir _ _ Hc Hr).
  - intros Hnone. destruct r as [root|]; [|reflexivity].
    destruct (search_up_found cwd isdir _ _ root Hc Hr)
      as (near & far & Hsplit & Hroot & _).
    rewrite Hsplit in Hnone. apply Forall_app in Hnone as [_ Hnone].
    inversion Hnone as [|x xs Hx _]; subst. cbv beta in Hx. congruence.
Qed.

(** X18.  From a start that, made absolute, begins with two slashes
    exactly, the search for the project root cannot return [None]: the
    root [//] is its own parent and differs from [/], so that when
    neither the start nor any directory above it has a child folder
    [transcripts_pipeline], the loop does not return, however many
    passes it is given. *)
Theorem project_root_search_hangs_under_two_slashes
  (cwd : Path.dirpath) (file : Path.pathname) (isdir : Path.dirpath -> bool)
  (start_path : option Path.pathname) :
  Path.clean cwd ->
  Path.double (search_start cwd file start_path) = true ->
  Forall (fun d => isdir (Path.child marker d) = false)
    (Path.ancestors (search_start cwd file start_path)) ->
  forall fuel,
    search_up cwd isdir fuel (search_start cwd file start_path) = None.
Proof.
  intros Hcwd Hdbl Hno fuel. apply search_up_hangs; try assumption.
  unfold search_start. now apply abspath_clean.
Qed.

(** X3.  Putting the project root in [sys.path] is idempotent and keeps
    what is there: the root, when found, is in the list afterwards,
    every earlier entry stays, in order, and doing it again changes
    nothing. *)
Theorem add_project_root_is_idempotent
  (root : option Path.dirpath) (sys_path : list pystr) :
  add_project_root root (add_project_root root sys_path)
  = add_project_root root sys_path
  /\ (forall r, root = Some r ->
                In (Path.to_str r) (add_project_root root sys_path))
  /\ exists front, add_project_root root sys_path = front ++ sys_path.
Proof.
  unfold add_project_root. destruct root as [r|].
  - assert (Hne : truthy (Path.to_str r) = true)
      by (unfold Path.to_str; destruct (Path.double r); reflexivity).
    cbv zeta. rewrite Hne.
    destruct (existsb (PyStr.eqb (Path.to_str r)) sys_path) eqn:Hin.
    + rewrite Hin. repeat split; [|now exists []].
      intros r0 H. injection H as <-.
      apply existsb_exists in Hin as (x & Hx & Heq).
      apply pystr_eqb_eq in Heq. now subst.
    + cbn [existsb].
      assert (Hrr : PyStr.eqb (Path.to_str r) (Path.to_str r) = true)
        by now apply pystr_eqb_eq.
      rewrite Hrr. cbn [orb]. repeat split; [|now exists [Path.to_str r]].
      intros r0 H. injection H as <-. now left.
  - repeat split; [discriminate | now exists []].
Qed.

(* ================================================================== *)
(** ** The configuration manager *)

Lemma has_section_In (cp : ConfigParser) (sec : pystr) :
  has_section cp sec = true <-> In sec (cp_sections cp).
Proof.
  unfold has_section. rewrite existsb_exists. split.
  - intros (x & Hx & Heq). apply pystr_eqb_eq in Heq. now subst.
  - intros H. exists sec. split; [exact H | now apply pystr_eqb_eq].
Qed.

Lemma validate_config_ok (cp : ConfigParser) :
  validate_config cp = Ok tt <->
  forall sec, In sec required_sections -> In sec (cp_sections cp).
Proof.
  unfold validate_config, missing_sections.
  destruct (filter (fun sec => negb (has_section cp sec)) required_sections)
    as [|m ms] eqn:Hmiss.
  - split; [|reflexivity]. intros _ sec Hsec. apply has_section_In.
    destruct (has_section cp sec) eqn:H; [reflexivity|].
    assert (Hin : In sec (filter (fun sec => negb (has_section cp sec))
                            required_sections)).
    { apply filter_In. split; [exact Hsec | now rewrite H]. }
    rewrite Hmiss in Hin. destruct Hin.
  - split; [discriminate|]. intros Hall.
    assert (Hin : In m (filter (fun sec => negb (has_section cp sec))
                          required_sections))
      by (rewrite Hmiss; now left).
    apply filter_In in Hin as [Hreq Hneg].
    apply Hall, has_section_In in Hreq. rewrite Hreq in Hneg. discriminate.
Qed.

(** X22.  [_validate_config] accepts a configuration exactly when the
    five sections [vosk], [audio], [recording], [whisper] and [output]
    are all there; otherwise it raises [ValueError]. *)
Theorem validate_config_wants_the_five_sections (cp : ConfigParser) :
  (validate_config cp = Ok tt <->
   forall sec, In sec required_sections -> In sec (cp_sections cp))
  /\ (validate_config cp = Ok tt
      \/ validate_config cp = Raise (ValueError "Missing required sections")).
Proof.
  split; [apply validate_config_ok|].
  unfold validate_config.
  destruct (missing_sections cp); [now left | now right].
Qed.

Lemma probe_spec (cwd : Path.dirpath) (exists_ : Path.dirpath -> bool)
  (paths : list Path.pathname) :
  match snd (probe cwd exists_ paths) with
  | Some found =>
      exists before after,
        map (Path.abspath cwd) paths = before ++ found :: after
        /\ exists_ found = true
        /\ Forall (fun pth => exists_ pth = false) before
        /\ fst (probe cwd exists_ paths)
           = map (fun pth => (pth, false)) before ++ [(found, true)]
  | None =>
      Forall (fun pth => exists_ pth = false) (map (Path.abspath cwd) paths)
      /\ fst (probe cwd exists_ paths)
         = map (fun pth => (pth, false)) (map (Path.abspath cwd) paths)
  end.
Proof.
  induction paths as [|pth rest IH]; cbn [probe map]; [now split|].
  destruct (exists_ (Path.abspath cwd pth)) eqn:Hex; cbn [fst snd].
  - exists [], (map (Path.abspath cwd) rest). now repeat split.
  - destruct (probe cwd exists_ rest) as [probes [found|]]; cbn [fst snd] in *.
    + destruct IH as (before & after & Hsplit & Hfound & Hbefore & Hprobes).
      exists (Path.abspath cwd pth :: before), after.
      rewrite Hsplit, Hprobes. repeat split; [assumption|].
      now constructor.
    + destruct IH as [Hnone Hprobes]. rewrite Hprobes.
      split; [now constructor | reflexivity].
Qed.

(** X23.  [_find_config_file] returns the first of its candidates, in
    the order they are listed, that exists once made absolute; the
    candidates before it were probed and not found, and none after it
    is probed.  It returns [None] exactly when none exists, after all
    were probed. *)
Theorem find_config_file_returns_the_first_that_exists
  (cwd script_dir : Path.dirpath) (exists_ : Path.dirpath -> bool)
  (config_file : Path.pathname) :
  let candidates :=
    map (Path.abspath cwd) (search_paths cwd script_dir config_file) in
  let searched := find_config_file cwd script_dir exists_ config_file in
  match snd searched with
  | Some found =>
      exists before after,
        candidates = before ++ found :: after
        /\ exists_ found = true
        /\ Forall (fun pth => exists_ pth = false) before
        /\ fst searched = map (fun pth => (pth, false)) before ++ [(found, true)]
  | None =>
      Forall (fun pth => exists_ pth = false) candidates
      /\ fst searched = map (fun pth => (pth, false)) candidates
  end.
Proof. apply probe_spec. Qed.

(** X24.  An absolute configuration path is looked for as given and
    nowhere else: every candidate is this path, and the result is the
    path when it exists and [None] otherwise. *)
Theorem absolute_config_path_is_taken_as_given
  (cwd script_dir : Path.dirpath) (exists_ : Path.dirpath -> bool)
  (config_file : Path.pathname) :
  Path.is_abs config_file = true ->
  let given := Path.abspath cwd config_file in
  Forall (fun pth => pth = given)
    (map (Path.abspath cwd) (search_paths cwd script_dir config_file))
  /\ snd (find_config_file cwd script_dir exists_ config_file)
     = if exists_ given then Some given else None.
Proof.
  intros Habs given. subst given.
  assert (Hjoin : forall a, Path.join a config_file = config_file)
    by (intros a; unfold Path.join; now rewrite Habs).
  unfold find_config_file, search_paths. rewrite !Hjoin.
  split; [repeat constructor|].
  cbn [probe].
  destruct (exists_ (Path.abspath cwd config_file)); reflexivity.
Qed.

(** X25.  Two of the seven candidates of [_find_config_file] are the
    same place as another one: the second (under the working directory)
    is the first, and the seventh (two levels up from the script) is
    the sixth (under the project root).  The search therefore looks at
    five places, and its result is that of probing these five. *)
Theorem find_config_file_looks_at_five_places
  (cwd script_dir : Path.dirpath) (exists_ : Path.dirpath -> bool)
  (config_file : Path.pathname) :
  Path.clean cwd ->
  Path.clean script_dir ->
  let paths := search_paths cwd script_dir config_file in
  let place i := Path.abspath cwd (nth i paths config_file) in
  place 1%nat = place 0%nat
  /\ place 6%nat = place 5%nat
  /\ snd (find_config_file cwd script_dir exists_ config_file)
     = snd (probe cwd exists_
              [nth 0 paths config_file; nth 2 paths config_file;
               nth 3 paths config_file; nth 4 paths config_file;
               nth 5 paths config_file]).
Proof.
  intros Hcwd Hsd paths place.
  assert (H10 : place 1%nat = place 0%nat).
  { subst place paths. cbn [nth search_paths].
    unfold Path.join. destruct (Path.is_abs config_file) eqn:Habs;
      [reflexivity|].
    unfold Path.is_abs in Habs. unfold Path.abspath, Path.of_dir.
    destruct (Path.lead config_file); try discriminate.
    destruct cwd as [[] l]; cbn [Path.lead Path.parts Path.double Path.comps];
      rewrite follow_app, follow_of_dir by exact Hcwd; reflexivity. }
  assert (H65 : place 6%nat = place 5%nat).
  { subst place paths. cbn [nth search_paths].
    destruct (Path.is_abs config_file) eqn:Habs.
    { assert (Hjoin : forall a, Path.join a config_file = config_file)
        by (intros a; unfold Path.join; now rewrite Habs).
      now rewrite !Hjoin. }
    unfold Path.is_abs in Habs.
    unfold Path.abspath, Path.join, Path.of_dir, Path.name, Path.dirname,
      Path.is_abs.
    destruct (Path.lead config_file); try discriminate.
    unfold Path.clean in Hsd.
    destruct script_dir as [[] l];
      cbn [Path.lead Path.parts Path.double Path.comps];
      rewrite !follow_app;
      rewrite (follow_of_dir l Hsd);
      rewrite (follow_of_dir (tl (tl l))) by (now apply kept_tl, kept_tl);
      reflexivity. }
  split; [exact H10|]. split; [exact H65|].
  subst place paths. unfold find_config_file.
  cbn [nth search_paths] in *. unfold search_paths. cbv zeta. cbn [probe].
  rewrite H10, H65.
  repeat match goal with
         | |- context [exists_ ?x] => destruct (exists_ x) eqn:?
         | |- context [let (_, _) := ?x in _] => destruct x eqn:?
         end;
    cbn [fst snd] in *; try reflexivity; try congruence.
Qed.

(** X26.  [ConfigManager] is built only from a file that was found,
    read and parsed and that has the five sections; when no candidate
    exists it raises [FileNotFoundError] after the probes, and no file
    is read or parsed. *)
Theorem ConfigManager_needs_a_found_and_complete_file
  (cwd script_dir : Path.dirpath) (exists_ : Path.dirpath -> bool)
  (read_raw : Path.dirpath -> result unit)
  (parse : Path.dirpath -> result ConfigParser)
  (config_file : Path.pathname) :
  let built :=
    ConfigManager_init cwd script_dir exists_ read_raw parse config_file in
  let searched := find_config_file cwd script_dir exists_ config_file in
  (forall cp, snd built = Ok cp ->
     exists actual,
       snd searched = Some actual
       /\ exists_ actual = true
       /\ read_raw actual = Ok tt
       /\ parse actual = Ok cp
       /\ forall sec, In sec required_sections -> In sec (cp_sections cp))
  /\ (snd searched = None ->
      snd built = Raise (FileNotFoundError "Configuration file not found")
      /\ fst built = map (fun pr => F_probe (fst pr) (snd pr)) (fst searched)).
Proof.
  intros built searched. subst built searched. unfold ConfigManager_init.
  pose proof (probe_spec cwd exists_
                (search_paths cwd script_dir config_file)) as Hfound.
  fold (find_config_file cwd script_dir exists_ config_file) in Hfound.
  destruct (find_config_file cwd script_dir exists_ config_file)
    as [probes [actual|]]; cbn [fst snd] in *.
  - split; [|discriminate]. intros cp Hbuilt.
    destruct Hfound as (before & after & _ & Hex & _).
    destruct (read_raw actual) as [[]|e] eqn:Hread; [|discriminate].
    destruct (parse actual) as [cp0|e] eqn:Hparse; [|discriminate].
    cbn [snd] in Hbuilt.
    destruct (validate_config cp0) as [[]|e] eqn:Hval; [|discriminate].
    injection Hbuilt as <-. exists actual. repeat split; try assumption.
    now apply validate_config_ok.
  - split; [discriminate|]. intros _. now split.
Qed.

(** X27.  [create_directories] tries both directories: when the two
    paths can be read from the configuration and [os.makedirs] fails
    with nothing but [Exception]s, it returns normally after one call
    for the recording directory and then one for the transcript
    directory, whatever the first call did. *)
Theorem create_directories_tries_both {F : Type} (cp : ConfigParser)
  (makedirs : pystr -> F -> result unit * F) (fs : F)
  (output_dir transcript_dir : pystr) :
  cp_get cp (lit "recording") (lit "OUTPUT_DIR") = Ok output_dir ->
  cp_get cp (lit "output") (lit "TRANSCRIPT_DIR") = Ok transcript_dir ->
  (forall path s e, fst (makedirs path s) = Raise e ->
                    isinstance_Exception e = true) ->
  let first := makedirs output_dir fs in
  let second := makedirs transcript_dir (snd first) in
  create_directories cp makedirs fs
  = ([(output_dir, fst first); (transcript_dir, fst second)], Ok tt,
     snd second).
Proof.
  intros Hout Htr Hmk first second. subst first second.
  unfold create_directories. rewrite Hout, Htr. cbn [make_each].
  pose proof (Hmk output_dir fs) as H1.
  destruct (makedirs output_dir fs) as [r1 fs1]; cbn [fst snd] in *.
  pose proof (Hmk transcript_dir fs1) as H2.
  destruct (makedirs transcript_dir fs1) as [r2 fs2]; cbn [fst snd] in *.
  destruct r1 as [[]|e1], r2 as [[]|e2];
    rewrite ?(H1 _ eq_refl), ?(H2 _ eq_refl); reflexivity.
Qed.

Section ManagedSetup.

Context {W K : Type} {E : Env W}.

(** X4.  With a [ConfigManager] as configuration,
    [setup_audio_stream] never selects a device: every call of
    [PyAudio.open] it makes is without [input_device_index]; and a
    sample format that is no attribute of [pyaudio] is passed to the
    call by its name. *)
Theorem managed_setup_opens_the_default_device
  (st : St W K) (cp : ConfigParser) (pyaudio_attr : pystr -> option Z)
  (kw : open_kwargs) :
  config (self st) = manager_config cp pyaudio_attr ->
  In kw (opened_with (hist (snd (setup_audio_stream st)))) ->
  In kw (opened_with (hist st))
  \/ (kw_input_device_index kw = None
      /\ forall fmt,
           cp_get cp (lit "audio") (lit "WAV_FORMAT") = Ok fmt ->
           pyaudio_attr fmt = None ->
           kw_format kw = FormatName fmt).
Proof.
  intros Hcfg.
  unfold setup_audio_stream, hasattr, getattr, set_p, set_stream, update,
    print, call, cfg, log, bind, ret, raise.
  step_through; cbn [opened_with]; intros Hin; auto;
    destruct Hin as [<- | Hin]; auto; right;
    cbn [kw_input_device_index kw_format];
    repeat match goal with
           | H : _ (config (self _)) = _ |- _ =>
               rewrite Hcfg in H;
               cbn [manager_config wav_format channels sample_rate
                      frame_per_buffer device_index] in H
           end;
    try discriminate.
  all: split; [reflexivity|]; intros fmt Hget Hattr.
  all: match goal with
       | H : match cp_get _ _ _ with _ => _ end = Ok _ |- _ =>
           rewrite Hget, Hattr in H; now injection H as <-
       end.
Qed.

End ManagedSetup.

(* ================================================================== *)
(** ** The further properties on the test bench *)

(** The release calls of the bench fail as the faults say. *)
Lemma bench_releases (f : Bench.faults) :
  (forall e, Bench.release_error f = Some e -> isinstance_Exception e = true) ->
  release_errors_are_Exceptions (Bench.env f)
  /\ forall fin part,
       release_errors_are_Exceptions (Bench.env_answering f fin part).
Proof.
  intros Hf.
  assert (H : forall (w : nat) e,
             fst (Bench.failing (Bench.release_error f) tt, w) = Raise e ->
             isinstance_Exception e = true).
  { intros w e. cbn [fst]. unfold Bench.failing.
    destruct (Bench.release_error f) as [x|]; [|discriminate].
    intros Hx. injection Hx as <-. now apply Hf. }
  split; [|intros fin part]; repeat split; intros h w e; apply H.
Defined.

Lemma bench_never_fails_to_release (f : Bench.faults) :
  Bench.release_error f = None ->
  forall e, Bench.release_error f = Some e -> isinstance_Exception e = true.
Proof. intros -> e H. discriminate. Defined.

(** The module lies in [/home/u/proj/transcripts_pipeline/pipeline]. *)
Lemma project_root_witness :
  let file :=
    Path.of_dir
      (Path.child (lit "gen.py")
         (Path.child (lit "pipeline")
            (Path.child (lit "transcripts_pipeline") Bench.proj))) in
  Path.clean Bench.proj
  /\ find_project_root_with_transcripts_pipeline Bench.proj file Bench.isdir
       None
     = Some (Some Bench.proj)
  /\ Bench.isdir (Path.child marker Bench.proj) = true.
Proof.
  intros file.
  assert (H1 : Path.clean Bench.proj) by reflexivity.
  assert (H2 : find_project_root_with_transcripts_pipeline Bench.proj file
                 Bench.isdir None = Some (Some Bench.proj))
    by (vm_compute; reflexivity).
  destruct (project_root_is_the_nearest_marked_directory Bench.proj file
              Bench.isdir None Bench.proj H1 H2) as (near & far & _ & Hmark & _).
  repeat split; assumption.
Defined.

(** No folder [transcripts_pipeline] anywhere. *)
Lemma project_root_search_witness :
  let start := search_start Bench.proj (Path.of_dir Bench.conf_file) None in
  Path.clean Bench.proj
  /\ Path.double start = false
  /\ find_project_root_with_transcripts_pipeline Bench.proj
       (Path.of_dir Bench.conf_file) (fun _ => false) None
     = Some None.
Proof.
  intros start.
  assert (H1 : Path.clean Bench.proj) by reflexivity.
  assert (H2 : Path.double start = false) by reflexivity.
  split; [exact H1|]. split; [exact H2|].
  destruct (project_root_search_ends Bench.proj (Path.of_dir Bench.conf_file)
              (fun _ => false) None H1 H2) as (r & Hr & Hiff).
  assert (Hnone : r = None).
  { apply Hiff. apply Forall_forall. reflexivity. }
  rewrite Hnone in Hr. exact Hr.
Defined.

(** The start is [//tmp/a], and no folder [transcripts_pipeline]
    anywhere. *)
Lemma project_root_hang_witness :
  let start_path :=
    Some {| Path.lead := Path.DoubleRoot;
            Path.parts := [lit "tmp"; lit "a"] |} in
  let start := search_start Bench.proj (Path.of_dir Bench.conf_file)
                 start_path in
  Path.clean Bench.proj
  /\ Path.double start = true
  /\ forall fuel,
       search_up Bench.proj (fun _ => false) fuel start = None.
Proof.
  intros start_path start.
  assert (H1 : Path.clean Bench.proj) by reflexivity.
  assert (H2 : Path.double start = true) by reflexivity.
  split; [exact H1|]. split; [exact H2|].
  apply (project_root_search_hangs_under_two_slashes Bench.proj
           (Path.of_dir Bench.conf_file) (fun _ => false) start_path H1 H2).
  apply Forall_forall. reflexivity.
Defined.

Lemma fresh_object_witness :
  let E := Bench.env Bench.healthy in
  construct None (ArgObject Bench.conf) = Ok (init Bench.conf)
  /\ surfaced (consume (ts_resume (E := E) None) [op_next; op_next] 1
                 GEN_CREATED Bench.fresh)
     = [Raised
          (RuntimeError
             "Audio stream or recognizer not initialized. Call setup and start_recognition first.");
        StopIteration].
Proof.
  intros E.
  assert (H : construct None (ArgObject Bench.conf) = Ok (init Bench.conf))
    by reflexivity.
  split; [exact H|].
  destruct (fresh_object_cannot_stream (E := E) (K := nat) None
              (ArgObject Bench.conf) (init Bench.conf) None [op_next] 1
              O O H) as [_ Hrun].
  unfold Bench.fresh. rewrite Hrun. reflexivity.
Defined.

Lemma run_without_model_path_witness :
  let E := Bench.env Bench.healthy in
  let st : St nat nat := mkSt (init Bench.conf_no_model) O O [] in
  vosk_model_path (config (self st)) = Ok (Some [])
  /\ fst (gen_op (run_resume (E := E) None) GEN_CREATED op_next 1 st)
     = (Raised (FileNotFoundError "Vosk model path is missing in config"),
        GEN_CLOSED).
Proof.
  intros E st. split; [reflexivity|].
  rewrite (run_without_model_path (E := E) None 1 st
             (or_intror eq_refl) eq_refl eq_refl).
  reflexivity.
Defined.

Lemma device_index_zero_witness :
  let E := Bench.env Bench.healthy in
  let st : St nat nat := mkSt (init (Bench.conf_device 0)) O O [] in
  let kw := {| kw_format := PaConstant 8; kw_channels := 1;
               kw_rate := 16000; kw_input := true;
               kw_frames_per_buffer := 1024;
               kw_input_device_index := None |} in
  device_index (config (self st)) = Some (Ok 0%Z)
  /\ opened_with (hist (snd (setup_audio_stream (E := E) st))) = [kw]
  /\ (In kw (opened_with (hist st)) \/ kw_input_device_index kw = None).
Proof.
  intros E st kw.
  assert (H1 : device_index (config (self st)) = Some (Ok 0%Z))
    by reflexivity.
  assert (H2 : opened_with (hist (snd (setup_audio_stream (E := E) st)))
               = [kw]) by (vm_compute; reflexivity).
  split; [exact H1|]. split; [exact H2|].
  apply (device_index_zero_is_not_passed (E := E) st 0%Z kw H1).
  rewrite H2. now left.
Defined.

Lemma run_leaves_no_audio_witness :
  let E := Bench.env Bench.lost in
  let stopped :=
    gen_op (run_resume (E := E) None) GEN_CREATED op_next 5 Bench.fresh in
  release_errors_are_Exceptions E
  /\ fst stopped = (Raised (OtherException "OSError"), GEN_CLOSED)
  /\ stream (self (snd stopped)) = None
  /\ p (self (snd stopped)) = None.
Proof.
  intros E stopped.
  assert (Hrel : release_errors_are_Exceptions E).
  { apply (bench_releases Bench.lost).
    now apply bench_never_fails_to_release. }
  split; [exact Hrel|]. split; [vm_compute; reflexivity|].
  apply (run_leaves_no_audio_handle (E := E) None GEN_CREATED GEN_CLOSED
           op_next 5 Bench.fresh (snd stopped)
           (Raised (OtherException "OSError")) Hrel);
    vm_compute; reflexivity.
Defined.

(** [SetWords] raises: the recognizer is set all the same. *)
Lemma start_recognition_tolerance_witness :
  let E := Bench.env_answering Bench.healthy Bench.final_payload
             Bench.partial_payload in
  fst (SetWords (Env := E) 4%nat true O) = Raise (OtherException "Exception")
  /\ fst (start_recognition (E := E) Bench.ready) = Ok tt
  /\ recognizer (self (snd (start_recognition (E := E) Bench.ready)))
     = Some 4%nat.
Proof.
  intros E. split; [reflexivity|].
  destruct (start_recognition_tolerates_word_timing (E := E) Bench.ready
              3%nat 4%nat 16000%Z O eq_refl eq_refl eq_refl)
    as (Hok & Hrec & _).
  - intros e H. discriminate.
  - intros w e H. cbn in H. injection H as <-. reflexivity.
  - now split.
Defined.

Lemma set_words_witness :
  let E := Bench.env Bench.healthy in
  model (self Bench.ready) = Some 3%nat
  /\ set_words_calls (hist (snd (start_recognition (E := E) Bench.ready)))
     = 1%nat.
Proof.
  intros E. split; [reflexivity|].
  exact (set_words_called_iff_requested_and_supported (E := E) Bench.ready
           3%nat 4%nat 16000%Z O eq_refl eq_refl eq_refl).
Defined.


(** The final result is an empty object. *)
Lemma result_without_text_witness :
  let E := Bench.env_answering Bench.healthy (lit "{}")
             Bench.partial_payload in
  json_loads (Env := E) (lit "{}") = Ok (JDict [])
  /\ recognize (E := E) (Bench.frame 0) Bench.ready
     = (Ok Continue,
        mkSt (self Bench.ready) O O
          [A_Result (Ok (lit "{}"));
           A_AcceptWaveform (Bench.frame 0) (Ok true)]).
Proof.
  intros E. split; [reflexivity|].
  exact (result_without_text_gives_no_event (E := E) (Bench.frame 0)
           Bench.ready 4%nat true O O (lit "{}") [] eq_refl eq_refl eq_refl
           eq_refl (or_introl eq_refl)).
Defined.

(** The final result is a list. *)
Lemma unusable_result_witness :
  let E := Bench.env_answering Bench.healthy (lit "[]")
             Bench.partial_payload in
  json_loads (Env := E) (lit "[]") = Ok (JList [])
  /\ fst (recognize (E := E) (Bench.frame 0) Bench.ready) = Ok Continue
  /\ hd_error (hist (snd (recognize (E := E) (Bench.frame 0) Bench.ready)))
     = Some (A_print "[LiveTranscriber] Vosk processing error").
Proof.
  intros E. split; [reflexivity|].
  assert (H : recognize (E := E) (Bench.frame 0) Bench.ready
              = (Ok Continue,
                 mkSt (self Bench.ready) O O
                   [A_print "[LiveTranscriber] Vosk processing error";
                    A_Result (Ok (lit "[]"));
                    A_AcceptWaveform (Bench.frame 0) (Ok true)])).
  { apply (unusable_result_is_reported_and_skipped (E := E) (Bench.frame 0)
             Bench.ready 4%nat true O O (lit "[]") eq_refl eq_refl eq_refl).
    right. exists (JList []). split; [reflexivity | exact I]. }
  rewrite H. split; reflexivity.
Defined.

(** The first frame gives the partial text. *)
Lemma usable_result_witness :
  let E := Bench.env Bench.healthy in
  fst (ts_loop (E := E) 1 None Bench.ready)
  = Yielded {| type := partial; text := lit "hel";
               timestamp := lit "2024-01-01T00:00:00";
               raw_result := JDict [(lit "partial", JStr (lit "hel"))] |}.
Proof.
  intros E.
  pose (st0 := snd (read_frame (E := E) Bench.ready)).
  assert (H1 : read_frame (E := E) Bench.ready = (Ok (Bench.frame 0), st0))
    by (vm_compute; reflexivity).
  assert (H2 : offer None (Bench.frame 0) st0 = (Ok tt, st0))
    by reflexivity.
  assert (Hs : strip (lit "hel") <> []) by (vm_compute; discriminate).
  rewrite (usable_result_is_emitted (E := E) None 0 Bench.ready st0 st0
             (Bench.frame 0) 4%nat false 1%nat 1%nat 1%nat
             Bench.partial_payload (lit "hel") (lit "2024-01-01T00:00:00")
             [(lit "partial", JStr (lit "hel"))]
             H1 H2 eq_refl eq_refl eq_refl eq_refl eq_refl Hs eq_refl).
  vm_compute. reflexivity.
Defined.


Lemma close_witness :
  let E := Bench.env Bench.healthy in
  release_errors_are_Exceptions E
  /\ stream (self (snd (gen_op (ts_resume (E := E) None) GEN_SUSPENDED
                         op_close 1 Bench.ready)))
     = Some 2%nat
  /\ stream (self (snd (gen_op (run_resume (E := E) None) GEN_SUSPENDED
                         op_close 1 Bench.ready)))
     = None.
Proof.
  intros E.
  assert (Hrel : release_errors_are_Exceptions E)
    by exact (proj1 bench_release_errors).
  split; [exact Hrel|].
  destruct (close_releases_the_audio_only_through_run (E := E) None 1
              Bench.ready Hrel) as (Hts & Hrun & Hs & _).
  rewrite Hts, Hrun. split; [reflexivity | exact Hs].
Defined.


Lemma run_passes_on_witness :
  let E := Bench.env Bench.healthy in
  release_errors_are_Exceptions E
  /\ fst (run_resume (E := E) None GEN_SUSPENDED Next 1 Bench.ready)
     = fst (ts_resume (E := E) None GEN_SUSPENDED Next 1 Bench.ready).
Proof.
  intros E.
  assert (Hrel : release_errors_are_Exceptions E)
    by exact (proj1 bench_release_errors).
  split; [exact Hrel|].
  exact (proj1 (run_passes_on_what_the_stream_gives (E := E) None 1
                  Bench.ready Bench.ready Hrel)).
Defined.

Lemma failed_open_witness :
  let E := Bench.env Bench.no_device in
  let st1 := snd (setup_audio_stream (E := E) Bench.fresh) in
  release_errors_are_Exceptions E
  /\ fst (setup_audio_stream (E := E) Bench.fresh)
     = Raise (OtherException "OSError")
  /\ p (self st1) = Some 1%nat
  /\ hist (snd (cleanup (E := E) st1))
     = [A_print "[LiveTranscriber] Audio resources cleaned up";
        A_terminate (Ok tt); A_open
          {| kw_format := PaConstant 8; kw_channels := 1; kw_rate := 16000;
             kw_input := true; kw_frames_per_buffer := 1024;
             kw_input_device_index := None |}
          (Raise (OtherException "OSError"));
        A_PyAudio (Ok 1%nat)].
Proof.
  intros E st1.
  assert (Hrel : release_errors_are_Exceptions E)
    by exact (proj1 (proj2 bench_release_errors)).
  assert (Hfail : fst (setup_audio_stream (E := E) Bench.fresh)
                  = Raise (OtherException "OSError"))
    by (vm_compute; reflexivity).
  split; [exact Hrel|]. split; [exact Hfail|].
  destruct (failed_open_is_cleaned_up (E := E) Bench.fresh 1%nat O
              (OtherException "OSError") Hrel eq_refl eq_refl Hfail)
    as (Hp & _ & _ & Hhist & _).
  split; [exact Hp|]. fold st1 in Hhist. rewrite Hhist.
  vm_compute. reflexivity.
Defined.

Lemma absolute_config_path_witness :
  let given := Path.of_dir Bench.conf_file in
  Path.is_abs given = true
  /\ snd (find_config_file Bench.proj Bench.script_dir Bench.file_exists given)
     = Some Bench.conf_file.
Proof.
  intros given. split; [reflexivity|].
  rewrite (proj2 (absolute_config_path_is_taken_as_given Bench.proj
                    Bench.script_dir Bench.file_exists given eq_refl)).
  vm_compute. reflexivity.
Defined.

(** The file is found in the [conf] folder beside the folder of the
    script, the fourth of the five places. *)
Lemma five_places_witness :
  let config_file := Path.name "transcription.conf" in
  Path.clean Bench.proj
  /\ Path.clean Bench.script_dir
  /\ snd (find_config_file Bench.proj Bench.script_dir Bench.file_exists
            config_file)
     = Some Bench.conf_file
  /\ List.length
       (fst (find_config_file Bench.proj Bench.script_dir Bench.file_exists
               config_file))
     = 5%nat.
Proof.
  intros config_file.
  assert (H1 : Path.clean Bench.proj) by reflexivity.
  assert (H2 : Path.clean Bench.script_dir) by reflexivity.
  split; [exact H1|]. split; [exact H2|].
  destruct (find_config_file_looks_at_five_places Bench.proj Bench.script_dir
              Bench.file_exists config_file H1 H2) as (_ & _ & Hfive).
  rewrite Hfive. split; vm_compute; reflexivity.
Defined.

(** The file of the bench is found and holds the five sections. *)
Lemma config_manager_witness :
  let config_file := Path.name "transcription.conf" in
  let read_raw := fun _ : Path.dirpath => Ok tt in
  let parse := fun _ : Path.dirpath => Ok Bench.parser in
  snd (ConfigManager_init Bench.proj Bench.script_dir Bench.file_exists
         read_raw parse config_file)
  = Ok Bench.parser
  /\ snd (find_config_file Bench.proj Bench.script_dir Bench.file_exists
            config_file)
     = Some Bench.conf_file.
Proof.
  intros config_file read_raw parse.
  assert (Hbuilt : snd (ConfigManager_init Bench.proj Bench.script_dir
                          Bench.file_exists read_raw parse config_file)
                   = Ok Bench.parser) by (vm_compute; reflexivity).
  split; [exact Hbuilt|].
  pose proof (ConfigManager_needs_a_found_and_complete_file Bench.proj
                Bench.script_dir Bench.file_exists read_raw parse config_file)
    as H.
  cbv zeta in H. destruct H as [H _].
  destruct (H Bench.parser Hbuilt) as (actual & Hfound & Hexists & _).
  rewrite Hfound. f_equal. apply path_eqb_eq. exact Hexists.
Defined.

Lemma create_directories_witness :
  cp_get Bench.parser (lit "recording") (lit "OUTPUT_DIR")
  = Ok (lit "recordings")
  /\ create_directories Bench.parser Bench.makedirs []
     = ([(lit "recordings", Raise (OtherException "PermissionError"));
         (lit "transcripts", Ok tt)],
        Ok tt, [lit "transcripts"]).
Proof.
  split; [reflexivity|].
  rewrite (create_directories_tries_both Bench.parser Bench.makedirs []
             (lit "recordings") (lit "transcripts") eq_refl eq_refl).
  - vm_compute. reflexivity.
  - intros path s e. unfold Bench.makedirs.
    destruct (PyStr.eqb path (lit "recordings")); cbn [fst];
      [|discriminate].
    intros H. injection H as <-. reflexivity.
Defined.

Lemma managed_setup_witness :
  let E := Bench.env Bench.healthy in
  let st : St nat nat :=
    mkSt (init (manager_config Bench.parser Bench.pyaudio_attr)) O O [] in
  let kw := {| kw_format := FormatName (lit "paInt17"); kw_channels := 1;
               kw_rate := 1; kw_input := true; kw_frames_per_buffer := 1;
               kw_input_device_index := None |} in
  config (self st) = manager_config Bench.parser Bench.pyaudio_attr
  /\ opened_with (hist (snd (setup_audio_stream (E := E) st))) = [kw]
  /\ (In kw (opened_with (hist st)) \/ kw_input_device_index kw = None).
Proof.
  intros E st kw.
  assert (H2 : opened_with (hist (snd (setup_audio_stream (E := E) st)))
               = [kw]) by (vm_compute; reflexivity).
  split; [reflexivity|]. split; [exact H2|].
  destruct (managed_setup_opens_the_default_device (E := E) st Bench.parser
              Bench.pyaudio_attr kw eq_refl) as [H | [H _]].
  - rewrite H2. now left.
  - now left.
  - now right.
Defined.
